(** * Ride-share dispatch simulation: a shallow embedding and its properties

    The development follows the Python sources module by module:
    [location], [rider], [driver], [dispatcher], [monitor], [event],
    [container] and [simulation].  Python objects that are shared and
    mutated (drivers and riders) live in a store indexed by object
    references; the dispatcher and the monitor are the two singletons the
    simulation owns.  Exceptions abort the computation and are modelled by
    the [result] type. *)

From Stdlib Require Import ZArith List String Bool Lia QArith Permutation Sorted.
Import ListNotations.

Local Open Scope Z_scope.
Local Open Scope list_scope.

(** ** Exceptions and the state-and-error monad *)

Inductive exn : Type :=
| AttributeError      (* attribute access on None *)
| ZeroDivisionError   (* [distance / 0] *)
| IndexError.         (* [pop] on an empty list *)

Inductive result (A : Type) : Type :=
| Ok (a : A)
| Raise (e : exn).

Arguments Ok {A} a.
Arguments Raise {A} e.

Definition rbind {A B : Type} (m : result A) (k : A -> result B) : result B :=
  match m with
  | Ok a => k a
  | Raise e => Raise e
  end.

Declare Scope result_scope.
Delimit Scope result_scope with result.
Notation "'try' x <- m ; k" := (rbind m (fun x => k))
  (at level 10, x pattern, m at level 100, k at level 200) : result_scope.
Local Open Scope result_scope.

(** Python's [round(d / s)] for integers [d] and [s <> 0]: the quotient
    rounded to the nearest integer, a tie going to the even neighbour.
    Python rounds [d / s] to a binary64 float first; the embedding rounds
    the exact quotient.  The two agree while [d] and [s] stay below 2^52.
    Beyond that the float may already sit on another side of a half, and
    a quotient beyond the range of floats makes Python raise
    OverflowError, which the embedding does not do.  Statements that say
    which integer the rounding yields carry the bound. *)
Definition py_round_div (d s : Z) : Z :=
  let q := d / s in
  let r := d mod s in
  match Z.compare (2 * Z.abs r) (Z.abs s) with
  | Lt => q
  | Gt => q + 1
  | Eq => if Z.even q then q else q + 1
  end.

(** ** Object references and stores

    A Python variable holds a reference to an object.  Drivers and riders
    are referred to from the dispatcher's lists and from pending events at
    the same time, so they are kept in stores and named by references. *)

Definition ref : Type := nat.

Definition store (A : Type) : Type := ref -> A.

Definition update {A : Type} (s : store A) (r : ref) (v : A) : store A :=
  fun r' => if Nat.eqb r' r then v else s r'.

(** ** location.py *)

Module location.

Record Location : Type := mkLocation { row : Z; column : Z }.

(** [Location.__eq__] *)
Definition Location_eq (self other : Location) : bool :=
  (row self =? row other) && (column self =? column other).

(** [manhattan_distance]; a [None] argument has no [row] attribute. *)
Definition manhattan_distance (origin destination : option Location)
  : result Z :=
  match origin, destination with
  | Some o, Some d =>
      let difference_row := Z.abs (row o - row d) in
      let difference_column := Z.abs (column o - column d) in
      Ok (difference_row + difference_column)
  | _, _ => Raise AttributeError
  end.

End location.
Import location.

(** ** rider.py *)

Module rider.

Inductive Status : Type := WAITING | CANCELLED | SATISFIED.

Definition Status_eqb (a b : Status) : bool :=
  match a, b with
  | WAITING, WAITING | CANCELLED, CANCELLED | SATISFIED, SATISFIED => true
  | _, _ => false
  end.

Record Rider : Type := mkRider {
  id : string;
  patience : Z;
  origin : Location;
  destination : Location;
  status : Status
}.

(** [Rider.__init__] *)
Definition new (identifier : string) (patience : Z)
               (origin destination : Location) : Rider :=
  mkRider identifier patience origin destination WAITING.

(** [Rider.__eq__]: riders are compared by identifier. *)
Definition Rider_eq (self other : Rider) : bool :=
  String.eqb (id self) (id other).

(** The assignment [rider.status = s]. *)
Definition set_status (s : Status) (r : Rider) : Rider :=
  mkRider (id r) (patience r) (origin r) (destination r) s.

Definition Riders : Type := store Rider.

End rider.
Import rider(Status, WAITING, CANCELLED, SATISFIED, Status_eqb, Rider, Riders).

(** ** driver.py *)

Module driver.

Record Driver : Type := mkDriver {
  id : string;
  location : option Location;
  destination : option Location;
  is_idle : bool;
  speed : Z
}.

(** [Driver.__init__] *)
Definition new (identifier : string) (loc : Location) (speed : Z) : Driver :=
  mkDriver identifier (Some loc) None true speed.

(** [Driver.__eq__]: drivers are compared by identifier. *)
Definition Driver_eq (self other : Driver) : bool :=
  String.eqb (id self) (id other).

Definition set_is_idle (b : bool) (d : Driver) : Driver :=
  mkDriver (id d) (location d) (destination d) b (speed d).

Definition set_location (l : option Location) (d : Driver) : Driver :=
  mkDriver (id d) l (destination d) (is_idle d) (speed d).

Definition set_destination (l : option Location) (d : Driver) : Driver :=
  mkDriver (id d) (location d) l (is_idle d) (speed d).

(** [Driver.get_travel_time] *)
Definition get_travel_time (self : Driver) (dest : option Location)
  : result Z :=
  try distance <- manhattan_distance (location self) dest;
  if speed self =? 0 then Raise ZeroDivisionError
  else Ok (py_round_div distance (speed self)).

Definition Drivers : Type := store Driver.

(** [Driver.start_drive] *)
Definition start_drive (self : ref) (loc : Location) (ds : Drivers)
  : result (Z * Drivers) :=
  let d := set_is_idle false (ds self) in
  let d := set_destination (Some loc) d in
  try t <- get_travel_time d (destination d);
  Ok (t, update ds self d).

(** [Driver.end_drive] *)
Definition end_drive (self : ref) (ds : Drivers) : Drivers :=
  let d := set_is_idle true (ds self) in
  let d := set_location (destination d) d in
  let d := set_destination None d in
  update ds self d.

(** [Driver.start_ride] *)
Definition start_ride (self : ref) (r : Rider) (ds : Drivers)
  : result (Z * Drivers) :=
  let d := set_is_idle false (ds self) in
  let d := set_location (Some (rider.origin r)) d in
  let d := set_destination (Some (rider.destination r)) d in
  try t <- get_travel_time d (destination d);
  Ok (t, update ds self d).

(** [Driver.end_ride] *)
Definition end_ride (self : ref) (ds : Drivers) : Drivers :=
  let d := set_is_idle true (ds self) in
  let d := set_location (destination d) d in
  let d := set_destination None d in
  update ds self d.

End driver.
Import driver(Driver, Drivers).

(** ** dispatcher.py *)

Module dispatcher.

Record Dispatcher : Type := mkDispatcher {
  _waiting_list : list ref;
  _driver_list : list ref
}.

(** [Dispatcher.__init__] *)
Definition new : Dispatcher := mkDispatcher [] [].

(** The state of the first loop of [request_driver]:
    [first_available_driver], [any_available] and [found]. *)
Definition scan_state : Type := (option ref * bool * Z)%type.

Definition scan_step (ds : Drivers) (st : scan_state) (d : ref)
  : scan_state :=
  let '(first_available_driver, any_available, found) := st in
  if driver.is_idle (ds d) && negb (found =? 1)
  then (Some d, true, found + 1)
  else st.

Definition scan (ds : Drivers) (l : list ref) : scan_state :=
  fold_left (scan_step ds) l (None, false, 0).

(** One turn of the second loop.  [closest_driver] starts as
    [first_available_driver], which Python allows to be [None]. *)
Definition closer_step (ds : Drivers) (rider_location : Location)
    (closest_driver : option ref) (d : ref) : result (option ref) :=
  if driver.is_idle (ds d) then
    try t <- driver.get_travel_time (ds d) (Some rider_location);
    try tc <- match closest_driver with
              | Some c => driver.get_travel_time (ds c) (Some rider_location)
              | None => Raise AttributeError
              end;
    Ok (if t <? tc then Some d else closest_driver)
  else Ok closest_driver.

Fixpoint closest_loop (ds : Drivers) (rider_location : Location)
    (l : list ref) (closest_driver : option ref) : result (option ref) :=
  match l with
  | [] => Ok closest_driver
  | d :: l' =>
      try c <- closer_step ds rider_location closest_driver d;
      closest_loop ds rider_location l' c
  end.

(** [Dispatcher.request_driver] *)
Definition request_driver (ds : Drivers) (rs : Riders) (self : Dispatcher)
    (r : ref) : result (option ref * Dispatcher) :=
  let '(first_available_driver, any_available, found) :=
    scan ds (_driver_list self) in
  if negb any_available then
    Ok (None, mkDispatcher (_waiting_list self ++ [r]) (_driver_list self))
  else
    try closest_driver <-
      closest_loop ds (rider.origin (rs r)) (_driver_list self)
                   first_available_driver;
    Ok (closest_driver, self).

(** [driver in self._driver_list], decided by [Driver.__eq__] *)
Definition driver_in (ds : Drivers) (d : ref) (l : list ref) : bool :=
  existsb (fun x => driver.Driver_eq (ds x) (ds d)) l.

(** [Dispatcher.request_rider]; [pop(0)] is only reached on a list that
    is not empty. *)
Definition request_rider (ds : Drivers) (self : Dispatcher) (d : ref)
  : option ref * Dispatcher :=
  let dl := if negb (driver_in ds d (_driver_list self))
            then _driver_list self ++ [d]
            else _driver_list self in
  match _waiting_list self with
  | r :: wl => (Some r, mkDispatcher wl dl)
  | [] => (None, mkDispatcher [] dl)
  end.

(** [rider in self._waiting_list], decided by [Rider.__eq__] *)
Definition rider_in (rs : Riders) (r : ref) (l : list ref) : bool :=
  existsb (fun x => rider.Rider_eq (rs x) (rs r)) l.

(** [list.remove]: drops the first element equal to the argument. *)
Fixpoint list_remove (rs : Riders) (r : ref) (l : list ref) : list ref :=
  match l with
  | [] => []
  | x :: l' =>
      if rider.Rider_eq (rs x) (rs r) then l' else x :: list_remove rs r l'
  end.

(** [Dispatcher.cancel_ride] *)
Definition cancel_ride (rs : Riders) (self : Dispatcher) (r : ref)
  : Riders * Dispatcher :=
  let rs := update rs r (rider.set_status CANCELLED (rs r)) in
  if rider_in rs r (_waiting_list self)
  then (rs, mkDispatcher (list_remove rs r (_waiting_list self))
                         (_driver_list self))
  else (rs, self).

End dispatcher.
Import dispatcher(Dispatcher, _waiting_list, _driver_list).

(** ** monitor.py *)

Module monitor.

Inductive Category : Type := RIDER | DRIVER.

Inductive Description : Type := REQUEST | CANCEL | PICKUP | DROPOFF.

Record Activity : Type := mkActivity {
  time : Z;
  description : Description;
  id : string;
  location : option Location
}.

(** A Python [dict] with string keys: keys are unique and [values()]
    enumerates them in the order of their first insertion. *)
Definition Dict (V : Type) : Type := list (string * V).

Definition dict_mem {V : Type} (k : string) (d : Dict V) : bool :=
  existsb (fun kv => String.eqb (fst kv) k) d.

Definition dict_values {V : Type} (d : Dict V) : list V := map snd d.

(** [d[k] = v] for a key that is not in [d] *)
Definition dict_add {V : Type} (k : string) (v : V) (d : Dict V) : Dict V :=
  d ++ [(k, v)].

(** In-place change of the value stored under [k] *)
Fixpoint dict_modify {V : Type} (k : string) (f : V -> V) (d : Dict V)
  : Dict V :=
  match d with
  | [] => []
  | (k', v) :: d' =>
      if String.eqb k' k then (k', f v) :: d'
      else (k', v) :: dict_modify k f d'
  end.

(** [_activities] has exactly the two keys [RIDER] and [DRIVER]. *)
Record Monitor : Type := mkMonitor {
  rider_activities : Dict (list Activity);
  driver_activities : Dict (list Activity)
}.

(** [Monitor.__init__] *)
Definition new : Monitor := mkMonitor [] [].

Definition _activities (self : Monitor) (c : Category)
  : Dict (list Activity) :=
  match c with
  | RIDER => rider_activities self
  | DRIVER => driver_activities self
  end.

Definition set_activities (c : Category) (d : Dict (list Activity))
    (self : Monitor) : Monitor :=
  match c with
  | RIDER => mkMonitor d (driver_activities self)
  | DRIVER => mkMonitor (rider_activities self) d
  end.

(** [Monitor.notify] *)
Definition notify (self : Monitor) (timestamp : Z) (category : Category)
    (descr : Description) (identifier : string) (loc : option Location)
  : Monitor :=
  let d := _activities self category in
  let d := if negb (dict_mem identifier d) then dict_add identifier [] d
           else d in
  let activity := mkActivity timestamp descr identifier loc in
  set_activities category
    (dict_modify identifier (fun l => l ++ [activity]) d) self.

(** Python's [a / b] on numbers that are integers; the float result is
    represented by the exact quotient. *)
Definition true_div (a b : Z) : Q := (inject_Z a / inject_Z b)%Q.

(** [Monitor._average_wait_time] *)
Definition wait_step (st : Z * Z) (activities : list Activity) : Z * Z :=
  let '(wait_time, count) := st in
  match activities with
  | a0 :: a1 :: _ => (wait_time + (time a1 - time a0), count + 1)
  | _ => st
  end.

Definition _average_wait_time (self : Monitor) : Q :=
  let '(wait_time, count) :=
    fold_left wait_step (dict_values (_activities self RIDER)) (0, 0) in
  if count =? 0 then 0%Q else true_div wait_time count.

(** [Monitor._average_total_distance] *)
Fixpoint driven (total_distance : Z) (l : list Activity) : result Z :=
  match l with
  | a :: (b :: _) as l' =>
      try d <- manhattan_distance (location a) (location b);
      driven (total_distance + d) l'
  | _ => Ok total_distance
  end.

Fixpoint total_loop (total_distance : Z) (ls : list (list Activity))
  : result Z :=
  match ls with
  | [] => Ok total_distance
  | l :: ls' =>
      try t <- driven total_distance l;
      total_loop t ls'
  end.

Definition _average_total_distance (self : Monitor) : result Q :=
  let logs := dict_values (_activities self DRIVER) in
  try total_distance <- total_loop 0 logs;
  if Z.of_nat (List.length logs) =? 0 then Ok 0%Q
  else Ok (true_div total_distance (Z.of_nat (List.length logs))).

(** [Monitor._average_ride_distance].  The loop state is
    [pickup_location], [total_distance] and [total_rides]; none of the
    three is reset between two drivers. *)
Definition ride_state : Type := (option Location * Z * Z)%type.

Definition ride_step (st : ride_state) (activity : Activity)
  : result ride_state :=
  let '(pickup_location, total_distance, total_rides) := st in
  match description activity with
  | PICKUP => Ok (location activity, total_distance, total_rides)
  | DROPOFF =>
      try d <- manhattan_distance pickup_location (location activity);
      Ok (pickup_location, total_distance + d, total_rides + 1)
  | _ => Ok st
  end.

Fixpoint ride_loop (st : ride_state) (l : list Activity)
  : result ride_state :=
  match l with
  | [] => Ok st
  | a :: l' => try st' <- ride_step st a; ride_loop st' l'
  end.

Fixpoint rides_loop (st : ride_state) (ls : list (list Activity))
  : result ride_state :=
  match ls with
  | [] => Ok st
  | l :: ls' => try st' <- ride_loop st l; rides_loop st' ls'
  end.

Definition _average_ride_distance (self : Monitor) : result Q :=
  try st <- rides_loop (None, 0, 0) (dict_values (_activities self DRIVER));
  let '(_, total_distance, total_rides) := st in
  if total_rides =? 0 then Ok 0%Q
  else Ok (true_div total_distance total_rides).

Record Report : Type := mkReport {
  rider_wait_time : Q;
  driver_total_distance : Q;
  driver_ride_distance : Q
}.

(** [Monitor.report] *)
Definition report (self : Monitor) : result Report :=
  let w := _average_wait_time self in
  try t <- _average_total_distance self;
  try r <- _average_ride_distance self;
  Ok (mkReport w t r).

End monitor.
Import monitor(Category, RIDER, DRIVER, Description, REQUEST, CANCEL, PICKUP,
               DROPOFF, Activity, mkActivity, Monitor).

(** ** event.py *)

Module event.

Inductive Event : Type :=
| RiderRequest (timestamp : Z) (r : ref)
| DriverRequest (timestamp : Z) (d : ref)
| Cancellation (timestamp : Z) (r : ref)
| Pickup (timestamp : Z) (r : ref) (d : ref)
| Dropoff (timestamp : Z) (r : ref) (d : ref).

Definition timestamp (e : Event) : Z :=
  match e with
  | RiderRequest t _ | DriverRequest t _ | Cancellation t _
  | Pickup t _ _ | Dropoff t _ _ => t
  end.

(** [Event.__lt__] and [Event.__le__] *)
Definition Event_lt (self other : Event) : bool :=
  timestamp self <? timestamp other.

Definition Event_le (self other : Event) : bool :=
  timestamp self <=? timestamp other.

(** [Event.__eq__], [__ne__], [__gt__] and [__ge__] *)
Definition Event_eq (self other : Event) : bool :=
  timestamp self =? timestamp other.

Definition Event_ne (self other : Event) : bool :=
  negb (Event_eq self other).

Definition Event_gt (self other : Event) : bool :=
  negb (Event_le self other).

Definition Event_ge (self other : Event) : bool :=
  negb (Event_lt self other).

(** Everything an event handler can read or change. *)
Record World : Type := mkWorld {
  w_drivers : Drivers;
  w_riders : Riders;
  w_dispatcher : Dispatcher;
  w_monitor : Monitor
}.

Definition set_drivers (ds : Drivers) (w : World) : World :=
  mkWorld ds (w_riders w) (w_dispatcher w) (w_monitor w).

Definition set_riders (rs : Riders) (w : World) : World :=
  mkWorld (w_drivers w) rs (w_dispatcher w) (w_monitor w).

Definition set_dispatcher (dp : Dispatcher) (w : World) : World :=
  mkWorld (w_drivers w) (w_riders w) dp (w_monitor w).

Definition set_monitor (m : Monitor) (w : World) : World :=
  mkWorld (w_drivers w) (w_riders w) (w_dispatcher w) m.

(** Handlers run in a state monad over [World] that can raise. *)
Definition M (A : Type) : Type := World -> result (A * World).

Definition ret {A : Type} (a : A) : M A := fun w => Ok (a, w).

Definition bind {A B : Type} (m : M A) (k : A -> M B) : M B :=
  fun w => match m w with
           | Ok (a, w') => k a w'
           | Raise e => Raise e
           end.

Declare Scope M_scope.
Delimit Scope M_scope with M.
Notation "x <- m ;; k" := (bind m (fun x => k))
  (at level 61, m at next level, right associativity) : M_scope.
Notation "m ;; k" := (bind m (fun _ => k))
  (at level 61, right associativity) : M_scope.
Local Open Scope M_scope.

Definition the_rider (r : ref) : M Rider := fun w => Ok (w_riders w r, w).

Definition the_driver (d : ref) : M Driver := fun w => Ok (w_drivers w d, w).

Definition set_rider_status (r : ref) (s : Status) : M unit :=
  fun w => Ok (tt, set_riders
                     (update (w_riders w) r (rider.set_status s (w_riders w r)))
                     w).

Definition notify (t : Z) (c : Category) (descr : Description)
    (identifier : string) (loc : option Location) : M unit :=
  fun w => Ok (tt, set_monitor
                     (monitor.notify (w_monitor w) t c descr identifier loc) w).

Definition request_driver (r : ref) : M (option ref) :=
  fun w =>
    try (d, dp) <- dispatcher.request_driver (w_drivers w) (w_riders w)
                      (w_dispatcher w) r;
    Ok (d, set_dispatcher dp w).

Definition request_rider (d : ref) : M (option ref) :=
  fun w =>
    let '(r, dp) := dispatcher.request_rider (w_drivers w) (w_dispatcher w) d in
    Ok (r, set_dispatcher dp w).

Definition cancel_ride (r : ref) : M unit :=
  fun w =>
    let '(rs, dp) := dispatcher.cancel_ride (w_riders w) (w_dispatcher w) r in
    Ok (tt, set_dispatcher dp (set_riders rs w)).

Definition start_drive (d : ref) (loc : Location) : M Z :=
  fun w =>
    try (t, ds) <- driver.start_drive d loc (w_drivers w);
    Ok (t, set_drivers ds w).

Definition end_drive (d : ref) : M unit :=
  fun w => Ok (tt, set_drivers (driver.end_drive d (w_drivers w)) w).

Definition start_ride (d : ref) (r : ref) : M Z :=
  fun w =>
    try (t, ds) <- driver.start_ride d (w_riders w r) (w_drivers w);
    Ok (t, set_drivers ds w).

Definition end_ride (d : ref) : M unit :=
  fun w => Ok (tt, set_drivers (driver.end_ride d (w_drivers w)) w).

(** [RiderRequest.do] *)
Definition RiderRequest_do (t : Z) (r : ref) : M (list Event) :=
  self_rider <- the_rider r ;;
  notify t RIDER REQUEST (rider.id self_rider)
         (Some (rider.origin self_rider)) ;;
  d <- request_driver r ;;
  events <- match d with
            | Some d =>
                self_rider <- the_rider r ;;
                travel_time <- start_drive d (rider.origin self_rider) ;;
                ret [Pickup (t + travel_time) r d]
            | None => ret []
            end ;;
  self_rider <- the_rider r ;;
  ret (events ++ [Cancellation (t + rider.patience self_rider) r]).

(** [DriverRequest.do] *)
Definition DriverRequest_do (t : Z) (d : ref) : M (list Event) :=
  self_driver <- the_driver d ;;
  notify t DRIVER REQUEST (driver.id self_driver)
         (driver.location self_driver) ;;
  r <- request_rider d ;;
  match r with
  | Some r =>
      a_rider <- the_rider r ;;
      time_to_rider <- start_drive d (rider.origin a_rider) ;;
      ret [Pickup (t + time_to_rider) r d]
  | None => ret []
  end.

(** [Cancellation.do]; a reference is never [None]. *)
Definition Cancellation_do (t : Z) (r : ref) : M (list Event) :=
  self_rider <- the_rider r ;;
  if Status_eqb (rider.status self_rider) WAITING then
    set_rider_status r CANCELLED ;;
    cancel_ride r ;;
    self_rider <- the_rider r ;;
    notify t RIDER CANCEL (rider.id self_rider)
           (Some (rider.origin self_rider)) ;;
    ret []
  else ret [].

(** [Pickup.do] *)
Definition Pickup_do (t : Z) (r : ref) (d : ref) : M (list Event) :=
  end_drive d ;;
  self_driver <- the_driver d ;;
  notify t DRIVER PICKUP (driver.id self_driver)
         (driver.location self_driver) ;;
  self_rider <- the_rider r ;;
  if Status_eqb (rider.status self_rider) WAITING then
    notify t RIDER PICKUP (rider.id self_rider)
           (Some (rider.origin self_rider)) ;;
    time_to_destination <- start_ride d r ;;
    set_rider_status r SATISFIED ;;
    ret [Dropoff (t + time_to_destination) r d]
  else if Status_eqb (rider.status self_rider) CANCELLED then
    ret [DriverRequest t d]
  else ret [].

(** [Dropoff.do] *)
Definition Dropoff_do (t : Z) (r : ref) (d : ref) : M (list Event) :=
  end_ride d ;;
  self_rider <- the_rider r ;;
  (if Status_eqb (rider.status self_rider) SATISFIED then
     notify t RIDER DROPOFF (rider.id self_rider)
            (Some (rider.destination self_rider)) ;;
     self_driver <- the_driver d ;;
     notify t DRIVER DROPOFF (driver.id self_driver)
            (Some (rider.destination self_rider))
   else ret tt) ;;
  ret [DriverRequest t d].

(** Dynamic dispatch of [Event.do] *)
Definition do (e : Event) : M (list Event) :=
  match e with
  | RiderRequest t r => RiderRequest_do t r
  | DriverRequest t d => DriverRequest_do t d
  | Cancellation t r => Cancellation_do t r
  | Pickup t r d => Pickup_do t r d
  | Dropoff t r d => Dropoff_do t r d
  end.

End event.
Import event(Event, RiderRequest, DriverRequest, Cancellation, Pickup, Dropoff,
             World, mkWorld, w_drivers, w_riders, w_dispatcher, w_monitor).

(** ** container.py *)

Module container.

Section PriorityQueue.

Variable A : Type.

(** The order of the items; events are ordered by their timestamps. *)
Variable key : A -> Z.

(** Modelled from the spec: [PriorityQueue] of container.py, a file that
    is not among the sources.  The spec has [add] insert an item, [remove]
    extract and return the item with the smallest timestamp and, among
    items of equal timestamp, the one inserted earliest, and [is_empty]
    report whether items remain; the repository's test reads the pending
    items from the attribute [_items], front first. *)
Record PriorityQueue : Type := mkPriorityQueue { _items : list A }.

Definition new : PriorityQueue := mkPriorityQueue [].

Fixpoint insert (item : A) (l : list A) : list A :=
  match l with
  | [] => [item]
  | x :: l' => if key item <? key x then item :: l else x :: insert item l'
  end.

Definition add (self : PriorityQueue) (item : A) : PriorityQueue :=
  mkPriorityQueue (insert item (_items self)).

Definition remove (self : PriorityQueue) : result (A * PriorityQueue) :=
  match _items self with
  | [] => Raise IndexError
  | x :: l => Ok (x, mkPriorityQueue l)
  end.

Definition is_empty (self : PriorityQueue) : bool :=
  match _items self with
  | [] => true
  | _ :: _ => false
  end.

End PriorityQueue.

Arguments mkPriorityQueue {A} _.
Arguments _items {A} _.
Arguments new {A}.
Arguments add {A} key self item.
Arguments remove {A} self.
Arguments is_empty {A} self.
Arguments insert {A} key item l.

End container.
Import container(PriorityQueue, _items).

(** ** simulation.py *)

Module simulation.

Record Simulation : Type := mkSimulation {
  _events : PriorityQueue Event;
  _world : World
}.

(** [Simulation.__init__]; the stores hold the actors the initial events
    refer to. *)
Definition new (ds : Drivers) (rs : Riders) : Simulation :=
  mkSimulation container.new (mkWorld ds rs dispatcher.new monitor.new).

(** [Simulation.__add_new_events] and the first loop of [run] *)
Definition add_new_events (q : PriorityQueue Event) (new_events : list Event)
  : PriorityQueue Event :=
  fold_left (container.add event.timestamp) new_events q.

(** The [while] loop of [run]; [fuel] bounds the number of events that
    are executed, and [None] says that it did not suffice. *)
Fixpoint loop (fuel : nat) (q : PriorityQueue Event) (w : World)
  : result (option World) :=
  if container.is_empty q then Ok (Some w)
  else
    match fuel with
    | O => Ok None
    | S fuel' =>
        try (task, q') <- container.remove q;
        try (new_event, w') <- event.do task w;
        loop fuel' (add_new_events q' new_event) w'
    end.

(** [Simulation.run] *)
Definition run (fuel : nat) (self : Simulation) (initial_events : list Event)
  : result (option monitor.Report) :=
  try w <- loop fuel (add_new_events (_events self) initial_events)
                (_world self);
  match w with
  | Some w => try r <- monitor.report (w_monitor w); Ok (Some r)
  | None => Ok None
  end.

End simulation.

(** ** The actors of the specification's scenarios

    Driver [bob] at (0,0) with speed 1 asks for a rider at time 0, rider
    [bobby] with patience 100 asks for a ride from (1,1) to (2,2) at
    time 0. *)

Definition bob : Driver := driver.new "bob" (mkLocation 0 0) 1.

Definition bobby : Rider :=
  rider.new "bobby" 100 (mkLocation 1 1) (mkLocation 2 2).

Definition scenario : simulation.Simulation :=
  simulation.new (fun _ => bob) (fun _ => bobby).

(** ** Definitions used by the statements *)

(** [n] is the integer nearest to [d / s], the even one when two are
    equally near ([s] positive). *)
Definition nearest_half_even (d s n : Z) : Prop :=
  2 * Z.abs (n * s - d) < s \/
  (2 * Z.abs (n * s - d) = s /\ Z.even n = true).

(** A driver whose travel time can be computed: it has a location and
    its speed is not zero. *)
Definition roadworthy (d : Driver) : Prop :=
  driver.location d <> None /\ driver.speed d <> 0.

(** The travel time of the driver behind [d] to [loc]. *)
Definition travel_time_to (ds : Drivers) (loc : Location) (d : ref)
  : result Z :=
  driver.get_travel_time (ds d) (Some loc).

(** [request_rider] called once for each driver of [l], in order, with
    the answers in the order of the calls. *)
Fixpoint request_riders (ds : Drivers) (self : Dispatcher) (l : list ref)
  : list (option ref) * Dispatcher :=
  match l with
  | [] => ([], self)
  | d :: l' =>
      let '(r, self1) := dispatcher.request_rider ds self d in
      let '(answers, self2) := request_riders ds self1 l' in
      (r :: answers, self2)
  end.

(** The number of entries of a roster that are the driver behind [d],
    as [Driver.__eq__] sees it. *)
Definition roster_entries (ds : Drivers) (d : ref) (l : list ref) : nat :=
  List.length (filter (fun x => driver.Driver_eq (ds x) (ds d)) l).

(** The calls a client can make on a dispatcher. *)
Inductive call : Type :=
| request_driver_call (r : ref)
| request_rider_call (d : ref)
| cancel_ride_call (r : ref).

(** A call changes the riders and the dispatcher; drivers are read only. *)
Definition do_call (ds : Drivers) (c : call) (st : Riders * Dispatcher)
  : result (Riders * Dispatcher) :=
  match c with
  | request_driver_call r =>
      try (_, dp) <- dispatcher.request_driver ds (fst st) (snd st) r;
      Ok (fst st, dp)
  | request_rider_call d =>
      Ok (fst st, snd (dispatcher.request_rider ds (snd st) d))
  | cancel_ride_call r => Ok (dispatcher.cancel_ride (fst st) (snd st) r)
  end.

Fixpoint do_calls (ds : Drivers) (cs : list call) (st : Riders * Dispatcher)
  : result (Riders * Dispatcher) :=
  match cs with
  | [] => Ok st
  | c :: cs' => try st' <- do_call ds c st; do_calls ds cs' st'
  end.

(** The rider a call takes care of: the one handed to the asking driver,
    or the one whose ride is cancelled. *)
Definition taken (c : call) (st : Riders * Dispatcher) : option ref :=
  match c with
  | request_driver_call _ => None
  | request_rider_call _ => hd_error (_waiting_list (snd st))
  | cancel_ride_call r => Some r
  end.

(** Every rider identity is on the waiting list at most once. *)
Definition waits_once (rs : Riders) (wl : list ref) : Prop :=
  NoDup (map (fun x => rider.id (rs x)) wl).

(** A driver is asked for only on behalf of a rider who is not waiting
    already. *)
Definition fresh_request (c : call) (st : Riders * Dispatcher) : bool :=
  match c with
  | request_driver_call r =>
      negb (dispatcher.rider_in (fst st) r (_waiting_list (snd st)))
  | _ => true
  end.

Fixpoint fresh_requests (ds : Drivers) (cs : list call)
    (st : Riders * Dispatcher) : bool :=
  match cs with
  | [] => true
  | c :: cs' =>
      fresh_request c st &&
      match do_call ds c st with
      | Ok st' => fresh_requests ds cs' st'
      | Raise _ => true
      end
  end.









(** The event queue.  An event is stamped with the number of [add] calls
    made before its own, which tells apart events that look the same. *)
Definition stamped : Type := (nat * Event)%type.

Definition stamped_key (x : stamped) : Z := event.timestamp (snd x).

(** The states of a queue that starts empty: [pending n q] after [n]
    calls of [add] and any number of calls of [remove]. *)
Inductive pending : nat -> PriorityQueue stamped -> Prop :=
| pending_new : pending 0 container.new
| pending_add n q e :
    pending n q -> pending (S n) (container.add stamped_key q (n, e))
| pending_remove n q x q' :
    pending n q -> container.remove q = Ok (x, q') -> pending n q'.

(** [x] is due no later than [y]: smaller timestamp, or the same
    timestamp and added no later. *)
Definition due_before (x y : stamped) : Prop :=
  stamped_key x < stamped_key y \/
  (stamped_key x = stamped_key y /\ (fst x <= fst y)%nat).

(** ** Further definitions used by statements *)

(** [d[k]] where it is defined *)
Fixpoint dict_get {V : Type} (k : string) (d : monitor.Dict V) : option V :=
  match d with
  | [] => None
  | (k', v) :: d' => if String.eqb k' k then Some v else dict_get k d'
  end.

(** The activities the monitor holds for an actor; none for an actor it
    was never told about. *)
Definition log_of (m : Monitor) (c : Category) (identifier : string)
  : list Activity :=
  match dict_get identifier (monitor._activities m c) with
  | Some l => l
  | None => []
  end.

Definition Category_eqb (a b : Category) : bool :=
  match a, b with
  | RIDER, RIDER | DRIVER, DRIVER => true
  | _, _ => false
  end.

(** A driver is idle exactly when it has no destination. *)
Definition tidy (d : Driver) : Prop :=
  driver.is_idle d = true <-> driver.destination d = None.





(** What may happen to the riders, to the drivers and to the logs while
    the simulation runs. *)
Definition riders_kept (rs rs' : Riders) : Prop :=
  forall x,
    (rider.id (rs' x) = rider.id (rs x) /\
     rider.patience (rs' x) = rider.patience (rs x) /\
     rider.origin (rs' x) = rider.origin (rs x) /\
     rider.destination (rs' x) = rider.destination (rs x)) /\
    (rider.status (rs x) <> WAITING ->
     rider.status (rs' x) = rider.status (rs x)).

Definition drivers_kept (ds ds' : Drivers) : Prop :=
  forall d,
    (driver.id (ds' d) = driver.id (ds d) /\
     driver.speed (ds' d) = driver.speed (ds d)) /\
    (tidy (ds d) -> tidy (ds' d)).

Definition logs_kept (m m' : Monitor) : Prop :=
  forall c i, exists more, log_of m' c i = log_of m c i ++ more.

(** What an event handler may do to the world: the relation of the world
    after the handler to the world before it. *)
Record evolves (w w' : World) : Prop := mkEvolves {
  rider_fixed : forall x,
    rider.id (w_riders w' x) = rider.id (w_riders w x) /\
    rider.patience (w_riders w' x) = rider.patience (w_riders w x) /\
    rider.origin (w_riders w' x) = rider.origin (w_riders w x) /\
    rider.destination (w_riders w' x) = rider.destination (w_riders w x);
  status_settled : forall x,
    rider.status (w_riders w x) <> WAITING ->
    rider.status (w_riders w' x) = rider.status (w_riders w x);
  driver_fixed : forall d,
    driver.id (w_drivers w' d) = driver.id (w_drivers w d) /\
    driver.speed (w_drivers w' d) = driver.speed (w_drivers w d);
  driver_tidy : forall d, tidy (w_drivers w d) -> tidy (w_drivers w' d);
  roster_grows : exists more,
    _driver_list (w_dispatcher w') = _driver_list (w_dispatcher w) ++ more;
  logs_grow : forall c i, exists more,
    log_of (w_monitor w') c i = log_of (w_monitor w) c i ++ more
}.

(** The events the loop of [run] executes, in the order of execution;
    the loop itself, keeping a record. *)
Fixpoint executed (fuel : nat) (q : PriorityQueue Event) (w : World)
  : result (list Event) :=
  if container.is_empty q then Ok []
  else
    match fuel with
    | O => Ok []
    | S fuel' =>
        try (task, q') <- container.remove q;
        try (new_event, w') <- event.do task w;
        try rest <- executed fuel' (simulation.add_new_events q' new_event) w';
        Ok (task :: rest)
    end.

(** * Properties *)

(** ** The scenarios of the specification, executed *)

(** The driver is matched at once, picks the rider up at time 2 and drops
    the rider off at time 4. *)
Example scenario_driver_and_rider :
  simulation.run 20 scenario [DriverRequest 0 0%nat; RiderRequest 0 0%nat]
  = Ok (Some (monitor.mkReport (2 # 1) (4 # 1) (2 # 1))).
Proof. reflexivity. Qed.

(** Without a driver the rider waits for as long as the patience lasts. *)
Example scenario_rider_alone :
  simulation.run 20 scenario [RiderRequest 0 0%nat]
  = Ok (Some (monitor.mkReport (100 # 1) 0 0)).
Proof. reflexivity. Qed.

(** The events of the first scenario, step by step. *)
Example scenario_first_events :
  exists w1 w2 w3,
    event.do (DriverRequest 0 0%nat) (simulation._world scenario)
    = Ok ([], w1) /\
    event.do (RiderRequest 0 0%nat) w1
    = Ok ([Pickup 2 0%nat 0%nat; Cancellation 100 0%nat], w2) /\
    event.do (Pickup 2 0%nat 0%nat) w2 = Ok ([Dropoff 4 0%nat 0%nat], w3) /\
    rider.status (w_riders w3 0%nat) = SATISFIED.
Proof.
  do 3 eexists. split; [reflexivity |]. split; [reflexivity |].
  split; reflexivity.
Qed.

(** ** Stores *)

Lemma update_same {A : Type} (s : store A) (r : ref) (v : A) :
  update s r v r = v.
Proof. unfold update. now rewrite Nat.eqb_refl. Qed.

Lemma update_other {A : Type} (s : store A) (r r' : ref) (v : A) :
  r' <> r -> update s r v r' = s r'.
Proof.
  intros H. unfold update.
  destruct (Nat.eqb_spec r' r); [contradiction | reflexivity].
Qed.

(** ** Rounding *)

Lemma py_round_div_nearest (d s : Z) :
  0 < s -> nearest_half_even d s (py_round_div d s).
Proof.
  intros Hs. unfold nearest_half_even, py_round_div.
  pose proof (Z.div_mod d s ltac:(lia)) as Hdm.
  pose proof (Z.mod_pos_bound d s Hs) as Hr.
  set (q := d / s) in *. set (r := d mod s) in *.
  rewrite (Z.abs_eq r), (Z.abs_eq s) by lia.
  destruct (Z.compare_spec (2 * r) s) as [He | Hl | Hg].
  - destruct (Z.even q) eqn:Hq.
    + right. split; [| exact Hq].
      replace (q * s - d) with (- r) by lia. rewrite Z.abs_opp, Z.abs_eq; lia.
    + right. split.
      * replace ((q + 1) * s - d) with (s - r) by lia. rewrite Z.abs_eq; lia.
      * rewrite Z.even_add, Hq. reflexivity.
  - left. replace (q * s - d) with (- r) by lia.
    rewrite Z.abs_opp, Z.abs_eq; lia.
  - left. replace ((q + 1) * s - d) with (s - r) by lia.
    rewrite Z.abs_eq; lia.
Qed.

(** The nearest integer with ties to even is unique, so
    [nearest_half_even] determines the value of [py_round_div]. *)
Lemma nearest_half_even_unique (d s n m : Z) :
  0 < s -> nearest_half_even d s n -> nearest_half_even d s m -> n = m.
Proof.
  unfold nearest_half_even. intros Hs Hn Hm.
  assert (Hclose : Z.abs (n - m) <= 1) by nia.
  destruct (Z.eq_dec n m) as [-> | Hne]; [reflexivity | exfalso].
  assert (Hpar : Z.even n = negb (Z.even m)).
  { assert (n = m + 1 \/ n = m - 1) as [-> | ->] by lia.
    - rewrite Z.even_add. simpl. now destruct (Z.even m).
    - rewrite Z.even_sub. simpl. now destruct (Z.even m). }
  destruct Hn as [Hn | [Hn Hen]], Hm as [Hm | [Hm Hem]]; try nia.
  rewrite Hen, Hem in Hpar. discriminate.
Qed.

(** ** Drivers *)

Lemma get_travel_time_roadworthy (d : Driver) (loc : Location) :
  roadworthy d ->
  exists l0 dist,
    driver.location d = Some l0 /\
    manhattan_distance (Some l0) (Some loc) = Ok dist /\
    driver.get_travel_time d (Some loc)
    = Ok (py_round_div dist (driver.speed d)).
Proof.
  intros [Hl Hs]. destruct (driver.location d) as [l0 |] eqn:El;
    [| contradiction].
  exists l0. eexists. split; [reflexivity |]. split; [reflexivity |].
  unfold driver.get_travel_time. rewrite El. simpl.
  destruct (Z.eqb_spec (driver.speed d) 0); [contradiction | reflexivity].
Qed.



(** ** The dispatcher: matching a rider with a driver *)

Section RequestDriver.

Variable ds : Drivers.

Lemma scan_step_found (first : option ref) (l : list ref) :
  fold_left (dispatcher.scan_step ds) l (first, true, 1) = (first, true, 1).
Proof.
  induction l as [| d l IH]; simpl; [reflexivity |].
  rewrite andb_false_r. exact IH.
Qed.

Lemma scan_none_idle (l : list ref) :
  (forall d, In d l -> driver.is_idle (ds d) = false) ->
  dispatcher.scan ds l = (None, false, 0).
Proof.
  unfold dispatcher.scan. induction l as [| d l IH]; intros H; simpl.
  - reflexivity.
  - rewrite (H d) by now left. simpl. apply IH.
    intros x Hx. apply H. now right.
Qed.

Lemma scan_first_idle (l1 l2 : list ref) (f : ref) :
  (forall d, In d l1 -> driver.is_idle (ds d) = false) ->
  driver.is_idle (ds f) = true ->
  dispatcher.scan ds (l1 ++ f :: l2) = (Some f, true, 1).
Proof.
  unfold dispatcher.scan. induction l1 as [| d l1 IH]; intros H Hf; simpl.
  - rewrite Hf. simpl. apply scan_step_found.
  - rewrite (H d) by now left. simpl. apply IH; [| exact Hf].
    intros x Hx. apply H. now right.
Qed.

(** The roster splits at its first idle driver, if it has one. *)
Lemma first_idle_split (l : list ref) :
  (exists d, In d l /\ driver.is_idle (ds d) = true) ->
  exists l1 f l2,
    l = l1 ++ f :: l2 /\
    (forall d, In d l1 -> driver.is_idle (ds d) = false) /\
    driver.is_idle (ds f) = true.
Proof.
  induction l as [| x l IH]; intros (d & Hin & Hd).
  - destruct Hin.
  - destruct (driver.is_idle (ds x)) eqn:Ex.
    + exists [], x, l. repeat split; [intros ? [] | exact Ex].
    + destruct IH as (l1 & f & l2 & -> & H1 & Hf).
      { destruct Hin as [-> | Hin]; [congruence | now exists d]. }
      exists (x :: l1), f, l2. repeat split; [| exact Hf].
      intros y [<- | Hy]; [exact Ex | now apply H1].
Qed.

Variable loc : Location.

(** The second loop: from a current choice [c] it ends on [c] itself if
    no idle driver of the list is strictly faster, and otherwise on the
    first of the fastest idle drivers of the list. *)
Lemma closest_loop_spec (l : list ref) :
  forall (c : ref) (tc : Z),
    travel_time_to ds loc c = Ok tc ->
    (forall d, In d l -> driver.is_idle (ds d) = true -> roadworthy (ds d)) ->
    exists c' t',
      dispatcher.closest_loop ds loc l (Some c) = Ok (Some c') /\
      travel_time_to ds loc c' = Ok t' /\
      ((c' = c /\
        forall d, In d l -> driver.is_idle (ds d) = true ->
                  exists td, travel_time_to ds loc d = Ok td /\ tc <= td)
       \/
       (t' < tc /\ driver.is_idle (ds c') = true /\
        exists p1 p2,
          l = p1 ++ c' :: p2 /\
          (forall d, In d p1 -> driver.is_idle (ds d) = true ->
                     exists td, travel_time_to ds loc d = Ok td /\ t' < td) /\
          (forall d, In d p2 -> driver.is_idle (ds d) = true ->
                     exists td, travel_time_to ds loc d = Ok td /\ t' <= td))).
Proof.
  induction l as [| d l IH]; intros c tc Hc Hrw.
  - exists c, tc. simpl. repeat split; try assumption.
    left. split; [reflexivity | intros ? []].
  - assert (Hrw' : forall x, In x l -> driver.is_idle (ds x) = true ->
                             roadworthy (ds x)).
    { intros x Hx. apply Hrw. now right. }
    simpl. unfold dispatcher.closer_step.
    destruct (driver.is_idle (ds d)) eqn:Ed.
    + destruct (get_travel_time_roadworthy (ds d) loc
                  (Hrw d (or_introl eq_refl) Ed)) as (l0 & dist & _ & _ & Htd).
      set (td := py_round_div dist (driver.speed (ds d))) in *.
      unfold travel_time_to in Hc. rewrite Htd, Hc. simpl.
      destruct (Z.ltb_spec td tc) as [Hlt | Hge].
      * destruct (IH d td Htd Hrw')
          as (c' & t' & Hloop & Ht' & [[-> Hall] | (Hlt' & Hidle & p1 & p2 & -> & H1 & H2)]).
        -- exists d, td. split; [exact Hloop |]. split; [exact Htd |].
           right. split; [exact Hlt |]. split; [exact Ed |].
           exists [], l. repeat split; [intros ? [] | exact Hall].
        -- exists c', t'. split; [exact Hloop |]. split; [exact Ht' |].
           right. split; [lia |]. split; [exact Hidle |].
           exists (d :: p1), p2. repeat split; [| exact H2].
           intros x [<- | Hx] Hix; [| now apply H1].
           exists td. split; [exact Htd | exact Hlt'].
      * destruct (IH c tc Hc Hrw')
          as (c' & t' & Hloop & Ht' & [[-> Hall] | (Hlt' & Hidle & p1 & p2 & -> & H1 & H2)]).
        -- exists c, tc. split; [exact Hloop |]. split; [exact Hc |].
           left. split; [reflexivity |].
           intros x [<- | Hx] Hix; [| now apply Hall].
           exists td. split; [exact Htd | exact Hge].
        -- exists c', t'. split; [exact Hloop |]. split; [exact Ht' |].
           right. split; [exact Hlt' |]. split; [exact Hidle |].
           exists (d :: p1), p2. repeat split; [| exact H2].
           intros x [<- | Hx] Hix; [| now apply H1].
           exists td. split; [exact Htd | lia].
    + simpl.
      destruct (IH c tc Hc Hrw')
        as (c' & t' & Hloop & Ht' & [[-> Hall] | (Hlt' & Hidle & p1 & p2 & -> & H1 & H2)]).
      * exists c, tc. split; [exact Hloop |]. split; [exact Hc |].
        left. split; [reflexivity |].
        intros x [<- | Hx] Hix; [congruence | now apply Hall].
      * exists c', t'. split; [exact Hloop |]. split; [exact Ht' |].
        right. split; [exact Hlt' |]. split; [exact Hidle |].
        exists (d :: p1), p2. repeat split; [| exact H2].
        intros x [<- | Hx] Hix; [congruence | now apply H1].
Qed.

End RequestDriver.

(** The answer of [request_driver] when no driver is idle. *)
Lemma request_driver_none_idle (ds : Drivers) (rs : Riders)
    (self : Dispatcher) (r : ref) :
  (forall d, In d (_driver_list self) -> driver.is_idle (ds d) = false) ->
  dispatcher.request_driver ds rs self r
  = Ok (None, dispatcher.mkDispatcher (_waiting_list self ++ [r])
                                      (_driver_list self)).
Proof.
  intros Hnone. unfold dispatcher.request_driver.
  now rewrite (scan_none_idle ds _ Hnone).
Qed.





(** ** The dispatcher: registering drivers and serving the waiting list *)

Section RequestRider.

Variable ds : Drivers.

Lemma Driver_eq_refl (d : Driver) : driver.Driver_eq d d = true.
Proof. unfold driver.Driver_eq. apply String.eqb_refl. Qed.

Lemma driver_in_app (d : ref) (l1 l2 : list ref) :
  dispatcher.driver_in ds d (l1 ++ l2)
  = dispatcher.driver_in ds d l1 || dispatcher.driver_in ds d l2.
Proof. unfold dispatcher.driver_in. apply existsb_app. Qed.

Lemma roster_entries_absent (d : ref) (l : list ref) :
  dispatcher.driver_in ds d l = false -> roster_entries ds d l = 0%nat.
Proof.
  unfold dispatcher.driver_in, roster_entries.
  induction l as [| x l IH]; simpl; [reflexivity |].
  intros H. apply orb_false_iff in H as [Hx Hl]. rewrite Hx. now apply IH.
Qed.

Lemma roster_entries_present (d : ref) (l : list ref) :
  dispatcher.driver_in ds d l = true -> (1 <= roster_entries ds d l)%nat.
Proof.
  unfold dispatcher.driver_in, roster_entries.
  induction l as [| x l IH]; simpl; [discriminate |].
  destruct (driver.Driver_eq (ds x) (ds d)); simpl; intros H.
  - apply le_n_S, Nat.le_0_l.
  - now apply IH.
Qed.

Lemma roster_entries_app (d : ref) (l1 l2 : list ref) :
  roster_entries ds d (l1 ++ l2)
  = (roster_entries ds d l1 + roster_entries ds d l2)%nat.
Proof. unfold roster_entries. now rewrite filter_app, length_app. Qed.

(** The roster after [request_rider]. *)
Lemma request_rider_roster (self : Dispatcher) (d : ref) :
  _driver_list (snd (dispatcher.request_rider ds self d))
  = if dispatcher.driver_in ds d (_driver_list self)
    then _driver_list self
    else _driver_list self ++ [d].
Proof.
  unfold dispatcher.request_rider.
  destruct (dispatcher.driver_in ds d (_driver_list self));
    destruct (_waiting_list self); reflexivity.
Qed.

(** The answer of [request_rider] and the waiting list after it. *)
Lemma request_rider_front (self : Dispatcher) (d : ref) :
  fst (dispatcher.request_rider ds self d) = hd_error (_waiting_list self) /\
  _waiting_list (snd (dispatcher.request_rider ds self d))
  = tl (_waiting_list self).
Proof.
  unfold dispatcher.request_rider. destruct (_waiting_list self); now split.
Qed.

Lemma request_riders_fifo (l : list ref) :
  forall self,
    List.length l = List.length (_waiting_list self) ->
    fst (request_riders ds self l) = map Some (_waiting_list self) /\
    _waiting_list (snd (request_riders ds self l)) = [].
Proof.
  induction l as [| d l IH]; intros self Hlen.
  - destruct (_waiting_list self) eqn:E; [| discriminate]. simpl.
    now rewrite E.
  - simpl.
    pose proof (request_rider_front self d) as [Hfst Hsnd].
    destruct (dispatcher.request_rider ds self d) as [r self1].
    simpl in Hfst, Hsnd.
    destruct (_waiting_list self) as [| x wl] eqn:E; [discriminate |].
    simpl in Hfst, Hsnd, Hlen.
    destruct (IH self1) as [Hans Hwl]; [rewrite Hsnd; lia |].
    destruct (request_riders ds self1 l) as [answers self2].
    simpl in *. subst r. rewrite Hans, Hsnd. now split.
Qed.

End RequestRider.

(** Presence in the roster, as [Driver.__eq__] decides it, is presence
    of the identifier. *)
Lemma driver_in_ids (ds : Drivers) (d : ref) (l : list ref) :
  dispatcher.driver_in ds d l = true <->
  In (driver.id (ds d)) (map (fun x => driver.id (ds x)) l).
Proof.
  unfold dispatcher.driver_in, driver.Driver_eq.
  rewrite existsb_exists, in_map_iff. split.
  - intros (x & Hx & He). apply String.eqb_eq in He. now exists x.
  - intros (x & He & Hx). exists x. split; [exact Hx |].
    now apply String.eqb_eq.
Qed.

(** The entries [Driver.__eq__] holds equal to a driver are the entries
    with the driver's identifier. *)
Lemma roster_entries_count (ds : Drivers) (d : ref) (l : list ref) :
  roster_entries ds d l
  = count_occ string_dec (map (fun x => driver.id (ds x)) l)
              (driver.id (ds d)).
Proof.
  unfold roster_entries, driver.Driver_eq.
  induction l as [| x l IH]; simpl; [reflexivity |].
  destruct (String.eqb_spec (driver.id (ds x)) (driver.id (ds d)))
    as [He | Hne];
    destruct (string_dec (driver.id (ds x)) (driver.id (ds d)));
    try contradiction; simpl; now rewrite IH.
Qed.

(** C4.  [request_rider] adds the driver to the roster exactly when no
    driver of the roster has its identifier.  A second call, by the same
    driver or by any other driver object with the same identifier,
    leaves the roster as the first call left it, so that an identifier
    that was not (or once) in the roster is in it exactly once after
    both calls.  The answer is the front of the waiting list, which is
    removed, or [None] when the list is empty; as many calls as there are
    waiting riders return the riders in the order of the list and empty
    it. *)
Theorem request_rider_registers_once_serves_fifo (ds : Drivers)
    (self : Dispatcher) (d d' : ref) :
  let ids := map (fun x => driver.id (ds x)) in
  let self1 := snd (dispatcher.request_rider ds self d) in
  let self2 := snd (dispatcher.request_rider ds self1 d') in
  (In (driver.id (ds d)) (ids (_driver_list self)) ->
   _driver_list self1 = _driver_list self) /\
  (~ In (driver.id (ds d)) (ids (_driver_list self)) ->
   _driver_list self1 = _driver_list self ++ [d]) /\
  In (driver.id (ds d)) (ids (_driver_list self1)) /\
  (driver.id (ds d') = driver.id (ds d) ->
   _driver_list self2 = _driver_list self1 /\
   count_occ string_dec (ids (_driver_list self2)) (driver.id (ds d))
   = Nat.max 1
       (count_occ string_dec (ids (_driver_list self)) (driver.id (ds d)))) /\
  (driver.id (ds d') <> driver.id (ds d) ->
   ~ In (driver.id (ds d')) (ids (_driver_list self)) ->
   _driver_list self2 = _driver_list self1 ++ [d']) /\
  fst (dispatcher.request_rider ds self d) = hd_error (_waiting_list self) /\
  _waiting_list self1 = tl (_waiting_list self) /\
  (forall l : list ref,
      List.length l = List.length (_waiting_list self) ->
      fst (request_riders ds self l) = map Some (_waiting_list self) /\
      _waiting_list (snd (request_riders ds self l)) = []).
Proof.
  intros ids self1 self2.
  assert (H1 : _driver_list self1
               = if dispatcher.driver_in ds d (_driver_list self)
                 then _driver_list self else _driver_list self ++ [d])
    by apply request_rider_roster.
  assert (H2 : _driver_list self2
               = if dispatcher.driver_in ds d' (_driver_list self1)
                 then _driver_list self1 else _driver_list self1 ++ [d'])
    by apply request_rider_roster.
  assert (Hin1 : In (driver.id (ds d)) (ids (_driver_list self1))).
  { apply driver_in_ids. rewrite H1.
    destruct (dispatcher.driver_in ds d (_driver_list self)) eqn:E;
      [exact E |].
    rewrite driver_in_app. simpl. rewrite Driver_eq_refl.
    now rewrite orb_true_r. }
  split.
  { intros Hin. apply driver_in_ids in Hin. now rewrite H1, Hin. }
  split.
  { intros Hout. rewrite H1.
    destruct (dispatcher.driver_in ds d (_driver_list self)) eqn:E;
      [| reflexivity].
    apply driver_in_ids in E. contradiction. }
  split; [exact Hin1 |].
  split.
  { intros Hid.
    assert (Hsame : _driver_list self2 = _driver_list self1).
    { rewrite H2. rewrite <- Hid in Hin1. apply driver_in_ids in Hin1.
      now rewrite Hin1. }
    split; [exact Hsame |].
    rewrite Hsame, H1. unfold ids. rewrite <- !roster_entries_count.
    destruct (dispatcher.driver_in ds d (_driver_list self)) eqn:E.
    - apply roster_entries_present in E. lia.
    - rewrite roster_entries_app, (roster_entries_absent ds d _ E).
      unfold roster_entries. simpl. now rewrite Driver_eq_refl. }
  split.
  { intros Hne Hout. rewrite H2.
    destruct (dispatcher.driver_in ds d' (_driver_list self1)) eqn:E;
      [| reflexivity].
    exfalso. apply driver_in_ids in E. rewrite H1 in E.
    destruct (dispatcher.driver_in ds d (_driver_list self));
      [contradiction |].
    rewrite map_app in E. apply in_app_or in E as [E | [E | []]];
      [contradiction | now apply Hne]. }
  split; [apply request_rider_front |].
  split; [apply request_rider_front |].
  intros l Hl. now apply request_riders_fifo.
Qed.

(** Two waiting riders, and two driver objects with the identifier "bob"
    that ask one after the other: the first is registered, the second,
    of the same identifier, is not. *)
Lemma request_rider_registers_once_serves_fifo_witness :
  _driver_list
    (snd (dispatcher.request_rider (fun _ => bob)
            (snd (dispatcher.request_rider (fun _ => bob)
                    (dispatcher.mkDispatcher [4%nat; 7%nat] []) 0%nat))
            1%nat))
  = [0%nat] /\
  fst (request_riders (fun _ => bob)
         (dispatcher.mkDispatcher [4%nat; 7%nat] []) [0%nat; 1%nat])
  = [Some 4%nat; Some 7%nat].
Proof.
  pose proof (request_rider_registers_once_serves_fifo (fun _ => bob)
                (dispatcher.mkDispatcher [4%nat; 7%nat] []) 0%nat 1%nat)
    as H.
  cbv zeta in H.
  destruct H as (_ & Hnew & _ & Hsame & _ & _ & _ & Hfifo).
  split.
  - destruct (Hsame eq_refl) as [-> _]. apply Hnew. intros [].
  - now apply Hfifo.
Defined.

(** ** The dispatcher: cancelling, and the waiting list as a whole *)

Section WaitingList.

(** The identifiers of the riders on a list. *)
Let ids (rs : Riders) (l : list ref) : list string :=
  map (fun x => rider.id (rs x)) l.

Lemma rider_in_ids (rs : Riders) (r : ref) (l : list ref) :
  dispatcher.rider_in rs r l = true <-> In (rider.id (rs r)) (ids rs l).
Proof.
  unfold dispatcher.rider_in, rider.Rider_eq, ids.
  rewrite existsb_exists, in_map_iff. split.
  - intros (x & Hx & He). apply String.eqb_eq in He. now exists x.
  - intros (x & He & Hx). exists x. split; [exact Hx |].
    now apply String.eqb_eq.
Qed.

Lemma rider_in_false_ids (rs : Riders) (r : ref) (l : list ref) :
  dispatcher.rider_in rs r l = false <-> ~ In (rider.id (rs r)) (ids rs l).
Proof.
  rewrite <- rider_in_ids.
  destruct (dispatcher.rider_in rs r l); split; intros H;
    try reflexivity; try discriminate; try (intros ?; discriminate).
  exfalso. now apply H.
Qed.

(** What [list.remove] drops: the first entry with the identifier. *)
Lemma list_remove_split (rs : Riders) (r : ref) (l : list ref) :
  dispatcher.rider_in rs r l = true ->
  exists l1 x l2,
    l = l1 ++ x :: l2 /\
    rider.Rider_eq (rs x) (rs r) = true /\
    dispatcher.rider_in rs r l1 = false /\
    dispatcher.list_remove rs r l = l1 ++ l2.
Proof.
  induction l as [| y l IH]; simpl; [discriminate |].
  destruct (rider.Rider_eq (rs y) (rs r)) eqn:Ey; simpl.
  - intros _. exists [], y, l. now repeat split.
  - intros H. destruct (IH H) as (l1 & x & l2 & -> & Hx & Hl1 & Hrm).
    exists (y :: l1), x, l2. simpl. rewrite Ey, Hrm. now repeat split.
Qed.

(** Stores that agree on identifiers agree on membership and removal. *)
Lemma rider_in_same_ids (rs rs' : Riders) (r : ref) (l : list ref) :
  (forall x, rider.id (rs' x) = rider.id (rs x)) ->
  dispatcher.rider_in rs' r l = dispatcher.rider_in rs r l.
Proof.
  intros H. unfold dispatcher.rider_in, rider.Rider_eq.
  induction l as [| y l IH]; simpl; [reflexivity |].
  rewrite IH. now rewrite !H.
Qed.

Lemma list_remove_same_ids (rs rs' : Riders) (r : ref) (l : list ref) :
  (forall x, rider.id (rs' x) = rider.id (rs x)) ->
  dispatcher.list_remove rs' r l = dispatcher.list_remove rs r l.
Proof.
  intros H. induction l as [| y l IH]; simpl; [reflexivity |].
  unfold rider.Rider_eq. rewrite !H, IH. reflexivity.
Qed.

Lemma ids_same_ids (rs rs' : Riders) (l : list ref) :
  (forall x, rider.id (rs' x) = rider.id (rs x)) ->
  ids rs' l = ids rs l.
Proof. intros H. unfold ids. apply map_ext. intros x. apply H. Qed.

Lemma set_status_keeps_id (rs : Riders) (r : ref) (s : Status) (x : ref) :
  rider.id (update rs r (rider.set_status s (rs r)) x) = rider.id (rs x).
Proof.
  unfold update. destruct (Nat.eqb_spec x r) as [-> | _]; reflexivity.
Qed.

(** [cancel_ride], spelled out over the store it was given. *)
Lemma cancel_ride_unfold (rs : Riders) (self : Dispatcher) (r : ref) :
  dispatcher.cancel_ride rs self r
  = (update rs r (rider.set_status CANCELLED (rs r)),
     if dispatcher.rider_in rs r (_waiting_list self)
     then dispatcher.mkDispatcher
            (dispatcher.list_remove rs r (_waiting_list self))
            (_driver_list self)
     else self).
Proof.
  unfold dispatcher.cancel_ride.
  rewrite (rider_in_same_ids rs _ r _ (set_status_keeps_id rs r CANCELLED)).
  rewrite (list_remove_same_ids rs _ r _ (set_status_keeps_id rs r CANCELLED)).
  destruct (dispatcher.rider_in rs r (_waiting_list self)); reflexivity.
Qed.

Lemma waits_once_removed (rs : Riders) (r x : ref) (l1 l2 : list ref) :
  waits_once rs (l1 ++ x :: l2) ->
  rider.Rider_eq (rs x) (rs r) = true ->
  dispatcher.rider_in rs r (l1 ++ l2) = false.
Proof.
  unfold waits_once. intros Hnd Hx. apply rider_in_false_ids.
  apply String.eqb_eq in Hx. rewrite <- Hx.
  unfold ids. rewrite map_app. rewrite map_app in Hnd. simpl in Hnd.
  now apply NoDup_remove_2 in Hnd.
Qed.

(** What a call of [request_driver] can do to the waiting list. *)
Lemma request_driver_waiting_list (ds : Drivers) (rs : Riders)
    (self self' : Dispatcher) (r : ref) (res : option ref) :
  dispatcher.request_driver ds rs self r = Ok (res, self') ->
  self' = self \/
  (res = None /\ _waiting_list self' = _waiting_list self ++ [r]).
Proof.
  unfold dispatcher.request_driver.
  destruct (dispatcher.scan ds (_driver_list self)) as [[first any] found].
  destruct any; simpl.
  - destruct (dispatcher.closest_loop ds (rider.origin (rs r))
                (_driver_list self) first); simpl; [| discriminate].
    intros [= <- <-]. now left.
  - intros [= <- <-]. right. now split.
Qed.

Lemma request_driver_total (ds : Drivers) (rs : Riders) (self : Dispatcher)
    (r : ref) :
  (forall d, roadworthy (ds d)) ->
  exists res self', dispatcher.request_driver ds rs self r = Ok (res, self').
Proof.
  intros Hrw.
  destruct (existsb (fun d => driver.is_idle (ds d)) (_driver_list self))
    eqn:Ex.
  - apply existsb_exists in Ex.
    destruct (first_idle_split ds _ Ex) as (l1 & f & l2 & Hl & Hbusy & Hf).
    assert (Hscan : dispatcher.scan ds (_driver_list self)
                    = (Some f, true, 1)).
    { rewrite Hl. now apply scan_first_idle. }
    destruct (get_travel_time_roadworthy (ds f) (rider.origin (rs r))
                (Hrw f)) as (l0 & dist & _ & _ & Htf).
    destruct (closest_loop_spec ds (rider.origin (rs r)) (_driver_list self)
                f _ Htf (fun d _ _ => Hrw d)) as (c & t & Hloop & _).
    unfold dispatcher.request_driver. rewrite Hscan. simpl.
    rewrite Hloop. simpl. now eauto.
  - unfold dispatcher.request_driver. rewrite scan_none_idle; simpl.
    + now eauto.
    + intros d Hd. destruct (driver.is_idle (ds d)) eqn:Ed; [| reflexivity].
      assert (existsb (fun d => driver.is_idle (ds d)) (_driver_list self)
              = true) by (apply existsb_exists; now exists d).
      congruence.
Qed.

Lemma do_call_keeps_ids (ds : Drivers) (c : call)
    (st st' : Riders * Dispatcher) :
  do_call ds c st = Ok st' ->
  forall x, rider.id (fst st' x) = rider.id (fst st x).
Proof.
  destruct st as [rs dp]. destruct c as [r | d | r]; simpl.
  - destruct (dispatcher.request_driver ds rs dp r) as [[res dp'] |];
      simpl; [| discriminate].
    now intros [= <-].
  - now intros [= <-].
  - rewrite cancel_ride_unfold. intros [= <-]. simpl.
    intros x. apply set_status_keeps_id.
Qed.

(** One call keeps every identity at most once on the list. *)
Lemma do_call_waits_once (ds : Drivers) (c : call)
    (st st' : Riders * Dispatcher) :
  waits_once (fst st) (_waiting_list (snd st)) ->
  fresh_request c st = true ->
  do_call ds c st = Ok st' ->
  waits_once (fst st') (_waiting_list (snd st')).
Proof.
  intros Hinv Hfresh Hcall.
  pose proof (do_call_keeps_ids ds c st st' Hcall) as Hids.
  unfold waits_once in *. fold (ids (fst st') (_waiting_list (snd st'))).
  fold (ids (fst st) (_waiting_list (snd st))) in Hinv.
  rewrite (ids_same_ids _ _ _ Hids).
  destruct st as [rs dp]. destruct c as [r | d | r]; simpl in *.
  - destruct (dispatcher.request_driver ds rs dp r) as [[res dp'] |] eqn:E;
      simpl in Hcall; [| discriminate].
    injection Hcall as <-. simpl.
    destruct (request_driver_waiting_list _ _ _ _ _ _ E) as [-> | [_ ->]];
      [exact Hinv |].
    unfold ids. rewrite map_app. simpl.
    apply NoDup_app; [exact Hinv | repeat constructor; intros [] |].
    intros a Ha [<- | []].
    apply negb_true_iff, rider_in_false_ids in Hfresh. now apply Hfresh.
  - injection Hcall as <-. simpl.
    rewrite (proj2 (request_rider_front ds dp d)).
    destruct (_waiting_list dp); [exact Hinv |].
    simpl in *. now inversion Hinv.
  - rewrite cancel_ride_unfold in Hcall. injection Hcall as <-. simpl.
    destruct (dispatcher.rider_in rs r (_waiting_list dp)) eqn:Ein;
      [| exact Hinv].
    destruct (list_remove_split rs r _ Ein) as (l1 & x & l2 & Hl & _ & _ & Hrm).
    simpl. rewrite Hrm. rewrite Hl in Hinv.
    unfold ids in *. rewrite map_app in *. simpl in Hinv.
    now apply NoDup_remove_1 in Hinv.
Qed.

(** A rider leaves the list in a call exactly when the call takes care
    of that rider. *)
Lemma do_call_removes (ds : Drivers) (c : call)
    (st st' : Riders * Dispatcher) :
  waits_once (fst st) (_waiting_list (snd st)) ->
  do_call ds c st = Ok st' ->
  forall x,
    (dispatcher.rider_in (fst st) x (_waiting_list (snd st)) = true /\
     dispatcher.rider_in (fst st') x (_waiting_list (snd st')) = false)
    <->
    (dispatcher.rider_in (fst st) x (_waiting_list (snd st)) = true /\
     exists y, taken c st = Some y /\
               rider.Rider_eq (fst st x) (fst st y) = true).
Proof.
  intros Hinv Hcall x.
  pose proof (do_call_keeps_ids ds c st st' Hcall) as Hids.
  rewrite (rider_in_same_ids _ _ x _ Hids).
  destruct st as [rs dp]. destruct c as [r | d | r]; simpl in *.
  - destruct (dispatcher.request_driver ds rs dp r) as [[res dp'] |] eqn:E;
      simpl in Hcall; [| discriminate].
    injection Hcall as <-. simpl.
    split; [| intros (_ & y & Hy & _); discriminate].
    intros [Hin Hout]. exfalso.
    destruct (request_driver_waiting_list _ _ _ _ _ _ E) as [-> | [_ Hw]];
      [congruence |].
    rewrite Hw in Hout. unfold dispatcher.rider_in in Hin, Hout.
    rewrite existsb_app, Hin in Hout. discriminate.
  - injection Hcall as <-. simpl.
    rewrite (proj2 (request_rider_front ds dp d)).
    destruct (_waiting_list dp) as [| y wl]; simpl.
    + split; [intros [H _]; discriminate | intros [H _]; discriminate].
    + unfold waits_once in Hinv. simpl in Hinv.
      apply NoDup_cons_iff in Hinv as [Hy _].
      split.
      * intros [Hin Hout]. split; [exact Hin |]. exists y.
        split; [reflexivity |].
        unfold dispatcher.rider_in in Hin, Hout. simpl in Hin.
        rewrite Hout, orb_false_r in Hin.
        unfold rider.Rider_eq in *. now rewrite String.eqb_sym.
      * intros (Hin & z & [= <-] & Hxy). split; [exact Hin |].
        apply rider_in_false_ids. apply String.eqb_eq in Hxy.
        now rewrite Hxy.
  - rewrite cancel_ride_unfold in Hcall. injection Hcall as <-. simpl.
    destruct (dispatcher.rider_in rs r (_waiting_list dp)) eqn:Ein.
    + destruct (list_remove_split rs r _ Ein)
        as (l1 & z & l2 & Hl & Hz & _ & Hrm).
      simpl. rewrite Hrm. rewrite Hl in Hinv.
      split.
      * intros [Hin Hout]. split; [exact Hin |]. exists r.
        split; [reflexivity |].
        rewrite Hl in Hin. unfold dispatcher.rider_in in Hin, Hout.
        rewrite existsb_app in Hin, Hout. simpl in Hin.
        apply orb_false_iff in Hout as [H1 H2]. rewrite H1, H2 in Hin.
        rewrite orb_false_r in Hin. simpl in Hin.
        unfold rider.Rider_eq in *.
        apply String.eqb_eq in Hin, Hz. apply String.eqb_eq. congruence.
      * intros (Hin & y & [= <-] & Hxy). split; [exact Hin |].
        apply (waits_once_removed rs x z l1 l2 Hinv).
        unfold rider.Rider_eq in *.
        apply String.eqb_eq in Hxy, Hz. apply String.eqb_eq. congruence.
    + split.
      * intros [Hin Hout]. congruence.
      * intros (Hin & y & [= <-] & Hxy). exfalso.
        apply rider_in_ids in Hin. apply rider_in_false_ids in Ein.
        apply String.eqb_eq in Hxy. apply Ein. now rewrite <- Hxy.
Qed.

End WaitingList.

(** C10.  [cancel_ride] sets the rider's status to CANCELLED whatever it
    was before, a SATISFIED rider included, and touches nothing else of
    the rider nor any other rider; it leaves the roster alone; it drops
    from the waiting list the first entry with the rider's identifier if
    there is one, after which (identifiers being on the list at most
    once) the rider is no longer listed, and leaves the list alone
    otherwise. *)
Theorem cancel_ride_has_no_status_guard (rs : Riders) (self : Dispatcher)
    (r : ref) :
  let rs' := fst (dispatcher.cancel_ride rs self r) in
  let self' := snd (dispatcher.cancel_ride rs self r) in
  rider.status (rs' r) = CANCELLED /\
  (rider.status (rs r) = SATISFIED -> rider.status (rs' r) <> SATISFIED) /\
  rs' r = rider.set_status CANCELLED (rs r) /\
  (forall x, x <> r -> rs' x = rs x) /\
  _driver_list self' = _driver_list self /\
  (dispatcher.rider_in rs r (_waiting_list self) = false -> self' = self) /\
  (dispatcher.rider_in rs r (_waiting_list self) = true ->
   exists l1 x l2,
     _waiting_list self = l1 ++ x :: l2 /\
     rider.Rider_eq (rs x) (rs r) = true /\
     dispatcher.rider_in rs r l1 = false /\
     _waiting_list self' = l1 ++ l2 /\
     (waits_once rs (_waiting_list self) ->
      dispatcher.rider_in rs' r (_waiting_list self') = false)).
Proof.
  intros rs' self'. subst rs' self'. rewrite cancel_ride_unfold. simpl.
  rewrite update_same.
  split; [reflexivity |]. split; [discriminate |]. split; [reflexivity |].
  split; [intros x Hx; now apply update_other |].
  split; [now destruct (dispatcher.rider_in rs r (_waiting_list self)) |].
  split; [now intros -> |].
  intros Hin. rewrite Hin. simpl.
  destruct (list_remove_split rs r _ Hin) as (l1 & x & l2 & Hl & Hx & Hl1 & Hrm).
  exists l1, x, l2. rewrite Hrm. repeat split; try assumption.
  intros Hw.
  rewrite (rider_in_same_ids rs _ r _ (set_status_keeps_id rs r CANCELLED)).
  rewrite Hl in Hw. now apply (waits_once_removed rs r x l1 l2).
Qed.

(** A rider who was dropped off and waits on no list is cancelled all the
    same. *)
Lemma cancel_ride_has_no_status_guard_witness :
  let satisfied : Riders := fun _ => rider.set_status SATISFIED bobby in
  rider.status
    (fst (dispatcher.cancel_ride satisfied
            (dispatcher.mkDispatcher [3%nat] []) 3%nat) 3%nat)
  <> SATISFIED /\
  _waiting_list
    (snd (dispatcher.cancel_ride satisfied
            (dispatcher.mkDispatcher [3%nat] []) 3%nat))
  = [].
Proof.
  intros satisfied.
  pose proof (cancel_ride_has_no_status_guard satisfied
                (dispatcher.mkDispatcher [3%nat] []) 3%nat) as H.
  cbv zeta in H. destruct H as (_ & Hleave & _ & _ & _ & _ & Hdrop).
  split; [now apply Hleave |].
  destruct (Hdrop eq_refl) as (l1 & x & l2 & Hl & _ & _ & -> & _).
  destruct l1 as [| a [| b l1]]; try discriminate.
  now injection Hl as _ <-.
Defined.

(** C7 as it is worded fails: a rider for whom [request_driver] is called
    twice while no driver is idle is on the waiting list twice. *)
Lemma waiting_list_duplicate :
  do_calls (fun _ => bob) [request_driver_call 5%nat; request_driver_call 5%nat]
           (fun _ => bobby, dispatcher.new)
  = Ok (fun _ => bobby, dispatcher.mkDispatcher [5%nat; 5%nat] []) /\
  ~ NoDup [5%nat; 5%nat] /\
  ~ waits_once (fun _ => bobby) [5%nat; 5%nat].
Proof.
  split; [reflexivity |]. split.
  - intros H. inversion H as [| ? ? Hin _]. apply Hin. now left.
  - unfold waits_once. simpl. intros H. inversion H as [| ? ? Hin _].
    apply Hin. now left.
Qed.

(** C7, amended.  Start from a waiting list that holds every rider
    identity at most once (the empty list of a new dispatcher, say) and
    make any calls of [request_driver], [request_rider] and [cancel_ride]
    in which [request_driver] is not called for a rider who is already
    waiting.  With drivers that have a location and a speed other than
    zero no call raises; in every state that is reached each identity is
    on the list at most once; and in any further call a rider leaves the
    list exactly when it is the rider [request_rider] hands to the driver
    or the rider [cancel_ride] cancels. *)
Theorem waiting_list_holds_riders_once (ds : Drivers) (cs : list call)
    (rs : Riders) (dp : Dispatcher) :
  waits_once rs (_waiting_list dp) ->
  fresh_requests ds cs (rs, dp) = true ->
  ((forall d, roadworthy (ds d)) ->
   exists st, do_calls ds cs (rs, dp) = Ok st) /\
  (forall rs' dp',
      do_calls ds cs (rs, dp) = Ok (rs', dp') ->
      waits_once rs' (_waiting_list dp') /\
      forall c rs'' dp'',
        do_call ds c (rs', dp') = Ok (rs'', dp'') ->
        forall x,
          (dispatcher.rider_in rs' x (_waiting_list dp') = true /\
           dispatcher.rider_in rs'' x (_waiting_list dp'') = false)
          <->
          (dispatcher.rider_in rs' x (_waiting_list dp') = true /\
           exists y, taken c (rs', dp') = Some y /\
                     rider.Rider_eq (rs' x) (rs' y) = true)).
Proof.
  revert rs dp. induction cs as [| c cs IH]; intros rs dp Hinv Hfresh.
  - split; [intros _; now exists (rs, dp) |].
    simpl. intros rs' dp' [= <- <-]. split; [exact Hinv |].
    intros c rs'' dp'' Hcall.
    exact (do_call_removes ds c (rs, dp) (rs'', dp'') Hinv Hcall).
  - simpl in Hfresh. apply andb_true_iff in Hfresh as [Hc Hrest].
    split.
    + intros Hrw. simpl.
      assert (Hstep : exists st1, do_call ds c (rs, dp) = Ok st1).
      { destruct c as [r | d | r]; simpl; try now eauto.
        destruct (request_driver_total ds rs dp r Hrw) as (res & dp1 & ->).
        simpl. now eauto. }
      destruct Hstep as ([rs1 dp1] & Hstep). rewrite Hstep in *. simpl.
      apply IH; [| exact Hrest | exact Hrw].
      exact (do_call_waits_once ds c (rs, dp) (rs1, dp1) Hinv Hc Hstep).
    + intros rs' dp'. simpl.
      destruct (do_call ds c (rs, dp)) as [[rs1 dp1] |] eqn:Hstep;
        simpl; [| discriminate].
      apply IH; [| exact Hrest].
      exact (do_call_waits_once ds c (rs, dp) (rs1, dp1) Hinv Hc Hstep).
Qed.

(** Two riders ask while no driver is there, a driver takes the first,
    the second cancels. *)
Lemma waiting_list_holds_riders_once_witness :
  let rs : Riders :=
    update (fun _ => bobby) 1%nat
           (rider.new "amy" 5 (mkLocation 0 0) (mkLocation 4 4)) in
  exists st,
    do_calls (fun _ => bob)
      [request_driver_call 0%nat; request_driver_call 1%nat;
       request_rider_call 0%nat; cancel_ride_call 1%nat]
      (rs, dispatcher.new) = Ok st /\
    waits_once (fst st) (_waiting_list (snd st)).
Proof.
  intros rs.
  destruct (waiting_list_holds_riders_once (fun _ => bob)
              [request_driver_call 0%nat; request_driver_call 1%nat;
               request_rider_call 0%nat; cancel_ride_call 1%nat]
              rs dispatcher.new) as [Htotal Hinv].
  - constructor.
  - reflexivity.
  - destruct Htotal as ([rs' dp'] & Hrun); [intros d; split; discriminate |].
    exists (rs', dp'). split; [exact Hrun |].
    now apply (Hinv rs' dp').
Defined.

(** ** Event handlers *)

Ltac run_handler :=
  unfold event.RiderRequest_do, event.DriverRequest_do, event.Cancellation_do,
    event.Pickup_do, event.Dropoff_do, event.bind, event.ret,
    event.the_rider, event.the_driver, event.set_rider_status, event.notify,
    event.request_driver, event.request_rider, event.cancel_ride,
    event.start_drive, event.end_drive, event.start_ride, event.end_ride;
  simpl.

Lemma Status_eqb_eq (a b : Status) : Status_eqb a b = true <-> a = b.
Proof. destruct a, b; simpl; split; congruence. Qed.


(** C6.  A Cancellation for a rider who is SATISFIED or CANCELLED changes
    nothing: not the rider, not the waiting list or the roster, not the
    monitor, and it yields no event.  For a rider who is WAITING it sets
    the status to CANCELLED, has the dispatcher cancel the ride and
    notifies RIDER CANCEL. *)
Theorem cancellation_acts_on_waiting_only (t : Z) (r : ref) (w : World) :
  (rider.status (w_riders w r) = SATISFIED \/
   rider.status (w_riders w r) = CANCELLED ->
   event.Cancellation_do t r w = Ok ([], w))
  /\
  (rider.status (w_riders w r) = WAITING ->
   exists w',
     event.Cancellation_do t r w = Ok ([], w') /\
     rider.status (w_riders w' r) = CANCELLED /\
     (forall x, x <> r -> w_riders w' x = w_riders w x) /\
     w_dispatcher w'
     = snd (dispatcher.cancel_ride (w_riders w) (w_dispatcher w) r) /\
     w_drivers w' = w_drivers w /\
     w_monitor w'
     = monitor.notify (w_monitor w) t RIDER CANCEL
         (rider.id (w_riders w r)) (Some (rider.origin (w_riders w r)))).
Proof.
  split.
  - intros Hst. run_handler.
    destruct Hst as [-> | ->]; reflexivity.
  - intros Hst. run_handler. rewrite Hst. simpl.
    rewrite !cancel_ride_unfold. simpl.
    rewrite (rider_in_same_ids (w_riders w) _ r _
               (set_status_keeps_id (w_riders w) r CANCELLED)).
    rewrite (list_remove_same_ids (w_riders w) _ r _
               (set_status_keeps_id (w_riders w) r CANCELLED)).
    eexists. split; [reflexivity |]. simpl.
    rewrite !update_same. simpl.
    split; [reflexivity |].
    split; [intros x Hx; now rewrite !update_other by exact Hx |].
    split; [reflexivity |]. split; reflexivity.
Qed.

(** A rider who was picked up: the Cancellation that was scheduled with
    the request finds the status SATISFIED. *)
Lemma cancellation_acts_on_waiting_only_witness :
  let w := mkWorld (fun _ => bob)
             (fun _ => rider.set_status SATISFIED bobby)
             (dispatcher.mkDispatcher [0%nat] [0%nat]) monitor.new in
  event.Cancellation_do 100 0%nat w = Ok ([], w).
Proof.
  intros w.
  apply (cancellation_acts_on_waiting_only 100 0%nat w).
  left. reflexivity.
Defined.

(** C3.  A Pickup whose rider is CANCELLED yields exactly one event, a
    DriverRequest for its driver at its own timestamp, and so no Dropoff;
    the driver has ended the drive (it is where it was heading, has no
    destination and is idle); DRIVER PICKUP is notified and nothing is
    notified for the rider; riders and dispatcher are as before. *)
Theorem pickup_of_cancelled_rider (t : Z) (r d : ref) (w : World) :
  rider.status (w_riders w r) = CANCELLED ->
  exists w',
    event.Pickup_do t r d w = Ok ([DriverRequest t d], w') /\
    w_drivers w' = driver.end_drive d (w_drivers w) /\
    driver.location (w_drivers w' d) = driver.destination (w_drivers w d) /\
    driver.destination (w_drivers w' d) = None /\
    driver.is_idle (w_drivers w' d) = true /\
    w_riders w' = w_riders w /\
    w_dispatcher w' = w_dispatcher w /\
    w_monitor w'
    = monitor.notify (w_monitor w) t DRIVER PICKUP
        (driver.id (w_drivers w d)) (driver.destination (w_drivers w d)) /\
    monitor.rider_activities (w_monitor w')
    = monitor.rider_activities (w_monitor w).
Proof.
  intros Hst. run_handler. rewrite Hst. simpl.
  eexists. split; [reflexivity |]. simpl.
  unfold driver.end_drive. rewrite !update_same. simpl.
  repeat split; reflexivity.
Qed.

(** The rider gave up at time 1 while [bob] was on the way. *)
Lemma pickup_of_cancelled_rider_witness :
  let busy := driver.set_destination (Some (mkLocation 1 1))
                (driver.set_is_idle false bob) in
  let w := mkWorld (fun _ => busy)
             (fun _ => rider.set_status CANCELLED bobby)
             (dispatcher.mkDispatcher [] [0%nat]) monitor.new in
  exists w',
    event.Pickup_do 2 0%nat 0%nat w = Ok ([DriverRequest 2 0%nat], w') /\
    driver.location (w_drivers w' 0%nat) = Some (mkLocation 1 1) /\
    driver.is_idle (w_drivers w' 0%nat) = true.
Proof.
  intros busy w.
  destruct (pickup_of_cancelled_rider 2 0%nat 0%nat w eq_refl)
    as (w' & Hdo & _ & Hloc & _ & Hidle & _).
  exists w'. split; [exact Hdo |]. split; [exact Hloc | exact Hidle].
Defined.




(** ** The monitor: average ride distance *)

Section RideDistance.





End RideDistance.




(** ** The event queue *)

Section Insert.

Context {A : Type} (key : A -> Z).

Lemma in_insert (a z : A) (l : list A) :
  In z (container.insert key a l) <-> z = a \/ In z l.
Proof.
  induction l as [| x l IH]; simpl.
  - intuition congruence.
  - destruct (key a <? key x); simpl; [intuition congruence |].
    rewrite IH. intuition congruence.
Qed.

Lemma insert_permutation (a : A) (l : list A) :
  Permutation (a :: l) (container.insert key a l).
Proof.
  induction l as [| x l IH]; simpl; [reflexivity |].
  destruct (key a <? key x); [reflexivity |].
  rewrite perm_swap. now constructor.
Qed.

(** The new item goes behind every item that is not due later. *)
Lemma insert_split (a : A) (l : list A) :
  exists l1 l2,
    l = l1 ++ l2 /\
    container.insert key a l = l1 ++ a :: l2 /\
    forall x, In x l1 -> key x <= key a.
Proof.
  induction l as [| x l IH]; simpl.
  - exists [], []. repeat split. intros ? [].
  - destruct (Z.ltb_spec (key a) (key x)) as [Hlt | Hge].
    + exists [], (x :: l). repeat split. intros ? [].
    + destruct IH as (l1 & l2 & -> & -> & Hle).
      exists (x :: l1), l2. repeat split.
      intros y [<- | Hy]; [exact Hge | now apply Hle].
Qed.

Lemma insert_behind (b : A) (l1 l2 : list A) :
  (forall x, In x l1 -> key x <= key b) ->
  container.insert key b (l1 ++ l2) = l1 ++ container.insert key b l2.
Proof.
  induction l1 as [| x l1 IH]; intros Hle; simpl; [reflexivity |].
  destruct (Z.ltb_spec (key b) (key x)) as [Hlt | _].
  - specialize (Hle x (or_introl eq_refl)). lia.
  - rewrite IH; [reflexivity |]. intros y Hy. apply Hle. now right.
Qed.

(** Stamps, or any other decoration the key does not look at, can be
    erased before or after the insertion. *)
Lemma insert_map {B : Type} (f : B -> A) (b : B) (l : list B) :
  map f (container.insert (fun x => key (f x)) b l)
  = container.insert key (f b) (map f l).
Proof.
  induction l as [| x l IH]; simpl; [reflexivity |].
  destruct (key (f b) <? key (f x)); simpl; [reflexivity |].
  now rewrite IH.
Qed.

End Insert.

Section Stamped.

(** Strictly earlier due; no two stamps of pending events are equal. *)
Let due_strictly (x y : stamped) : Prop :=
  stamped_key x < stamped_key y \/
  (stamped_key x = stamped_key y /\ (fst x < fst y)%nat).

Lemma insert_sorted (n : nat) (e : Event) (l : list stamped) :
  StronglySorted due_strictly l ->
  (forall x, In x l -> (fst x < n)%nat) ->
  StronglySorted due_strictly (container.insert stamped_key (n, e) l).
Proof.
  induction l as [| x l IH]; intros Hs Hn; simpl.
  - repeat constructor.
  - apply StronglySorted_inv in Hs as [Hl Hx].
    rewrite Forall_forall in Hx.
    destruct (Z.ltb_spec (stamped_key (n, e)) (stamped_key x)) as [Hlt | Hge].
    + constructor; [constructor; [exact Hl | now apply Forall_forall] |].
      apply Forall_forall. intros y [<- | Hy]; [now left |].
      left. destruct (Hx y Hy) as [H | [H _]]; lia.
    + constructor.
      * apply IH; [exact Hl |]. intros y Hy. apply Hn. now right.
      * apply Forall_forall. intros y Hy.
        apply in_insert in Hy as [-> | Hy]; [| now apply Hx].
        destruct (Z.eq_dec (stamped_key x) (stamped_key (n, e))) as [He | Hne].
        -- right. split; [exact He |]. simpl. apply Hn. now left.
        -- left. lia.
Qed.

(** What holds of every queue that started empty. *)
Lemma pending_sorted (n : nat) (q : PriorityQueue stamped) :
  pending n q ->
  StronglySorted due_strictly (_items q) /\
  forall x, In x (_items q) -> (fst x < n)%nat.
Proof.
  induction 1 as [| n q e _ [Hs Hn] | n q x q' _ [Hs Hn] Hrm]; simpl.
  - split; [constructor | intros ? []].
  - split.
    + now apply insert_sorted.
    + intros y Hy. apply in_insert in Hy as [-> | Hy]; simpl; [lia |].
      specialize (Hn y Hy). lia.
  - unfold container.remove in Hrm.
    destruct (_items q) as [| y l] eqn:E; [discriminate |].
    injection Hrm as <- <-. simpl.
    apply StronglySorted_inv in Hs as [Hl _].
    split; [exact Hl |]. intros z Hz. apply Hn. now right.
Qed.

Lemma due_strictly_before (x y : stamped) :
  due_strictly x y -> due_before x y.
Proof. unfold due_strictly, due_before. lia. Qed.

Lemma remove_front (n : nat) (q q' : PriorityQueue stamped) (x : stamped) :
  pending n q ->
  container.remove q = Ok (x, q') ->
  _items q = x :: _items q' /\
  forall y, In y (_items q) -> due_before x y.
Proof.
  intros Hp Hrm. destruct (pending_sorted n q Hp) as [Hs _].
  unfold container.remove in Hrm.
  destruct (_items q) as [| z l] eqn:E; [discriminate |].
  injection Hrm as <- <-. simpl. split; [reflexivity |].
  apply StronglySorted_inv in Hs as [_ Hx]. rewrite Forall_forall in Hx.
  intros y [<- | Hy].
  - right. split; [reflexivity | apply Nat.le_refl].
  - now apply due_strictly_before, Hx.
Qed.

End Stamped.

(** C1.  In a queue that started empty and saw any calls of [add] and
    [remove], [remove] succeeds as long as an event is pending and
    returns a pending event that is due no later than any pending event:
    none has a smaller timestamp, and none with the same timestamp was
    added before it; the other pending events stay.  The stamps do not
    change where [add] puts an event.  Two events [a] then [b] with the
    same timestamp, added to any queue, are in it with [a] in front of
    [b], and added to the empty queue they are removed as [a], then [b]. *)
Theorem remove_yields_earliest_pending (n : nat) (q : PriorityQueue stamped) :
  pending n q ->
  (container.is_empty q = false ->
   exists x q', container.remove q = Ok (x, q')) /\
  (forall x q',
      container.remove q = Ok (x, q') ->
      In x (_items q) /\
      (forall y, In y (_items q) -> due_before x y) /\
      Permutation (_items q) (x :: _items q') /\
      pending n q') /\
  (forall e,
      map snd (_items (container.add stamped_key q (n, e)))
      = _items (container.add event.timestamp
                  (container.mkPriorityQueue (map snd (_items q))) e)) /\
  (forall (q0 : PriorityQueue Event) (a b : Event),
      event.timestamp a = event.timestamp b ->
      exists l1 l2 l3,
        _items (container.add event.timestamp
                  (container.add event.timestamp q0 a) b)
        = l1 ++ a :: l2 ++ b :: l3) /\
  (forall a b : Event,
      event.timestamp a = event.timestamp b ->
      exists q1,
        container.remove
          (container.add event.timestamp
             (container.add event.timestamp container.new a) b)
        = Ok (a, q1) /\
        container.remove q1 = Ok (b, container.new)).
Proof.
  intros Hp. split; [| split; [| split; [| split]]].
  - unfold container.is_empty, container.remove.
    destruct (_items q); [discriminate | now eauto].
  - intros x q' Hrm.
    destruct (remove_front n q q' x Hp Hrm) as [Hitems Hdue].
    split; [rewrite Hitems; now left |]. split; [exact Hdue |].
    split; [now rewrite Hitems |].
    exact (pending_remove n q x q' Hp Hrm).
  - intros e. simpl.
    exact (insert_map event.timestamp snd (n, e) (_items q)).
  - intros q0 a b Hab. simpl.
    destruct (insert_split event.timestamp a (_items q0))
      as (l1 & l2 & _ & -> & Hle).
    rewrite insert_behind by (intros x Hx; rewrite <- Hab; now apply Hle).
    simpl. rewrite Hab, Z.ltb_irrefl.
    destruct (insert_split event.timestamp b l2) as (l2a & l2b & _ & -> & _).
    now exists l1, l2a, l2b.
  - intros a b Hab. unfold container.add, container.remove. simpl.
    rewrite Hab, Z.ltb_irrefl. simpl. eexists. split; reflexivity.
Qed.

(** Two driver requests at time 0, as in the repository's test. *)
Lemma remove_yields_earliest_pending_witness :
  let dr1 := DriverRequest 0 1%nat in
  let dr2 := DriverRequest 0 2%nat in
  let pq := container.add stamped_key
              (container.add stamped_key container.new (0%nat, dr1))
              (1%nat, dr2) in
  _items pq = [(0%nat, dr1); (1%nat, dr2)] /\
  exists q', container.remove pq = Ok ((0%nat, dr1), q') /\ pending 2 q'.
Proof.
  intros dr1 dr2 pq. split; [reflexivity |].
  assert (Hp : pending 2 pq) by (repeat constructor).
  destruct (remove_yields_earliest_pending 2 pq Hp) as (Hsome & Hmin & _).
  destruct (Hsome eq_refl) as (x & q' & Hrm).
  exists q'. destruct (Hmin x q' Hrm) as (_ & _ & _ & Hp').
  split; [| exact Hp'].
  rewrite Hrm. injection Hrm as <- _. reflexivity.
Defined.

(** * Further properties of the code *)

(** ** Locations and travel times *)

(** X1.  [manhattan_distance] is a metric on locations: it is never
    negative, does not depend on the direction, is zero exactly between
    locations that [Location.__eq__] holds equal (which are the equal
    ones) and obeys the triangle inequality; with [None] for either
    argument it raises AttributeError. *)
Theorem manhattan_distance_is_a_metric (a b c : Location) :
  exists dab dbc dac,
    manhattan_distance (Some a) (Some b) = Ok dab /\
    manhattan_distance (Some b) (Some c) = Ok dbc /\
    manhattan_distance (Some a) (Some c) = Ok dac /\
    manhattan_distance (Some b) (Some a) = Ok dab /\
    0 <= dab /\
    (dab = 0 <-> Location_eq a b = true) /\
    (Location_eq a b = true <-> a = b) /\
    dac <= dab + dbc /\
    manhattan_distance None (Some a) = Raise AttributeError /\
    manhattan_distance (Some a) None = Raise AttributeError.
Proof.
  do 3 eexists. simpl.
  split; [reflexivity |]. split; [reflexivity |]. split; [reflexivity |].
  split; [f_equal; lia |]. split; [lia |].
  unfold Location_eq. rewrite andb_true_iff, !Z.eqb_eq.
  split; [lia |]. split; [| split; [lia | split; reflexivity]].
  destruct a as [ra ca], b as [rb cb]. simpl. split.
  - intros [-> ->]. reflexivity.
  - intros [= -> ->]. now split.
Qed.

Lemma travel_time_not_negative (dist s : Z) :
  0 <= dist -> 0 < s ->
  0 <= py_round_div dist s /\ (py_round_div dist s = 0 <-> 2 * dist <= s).
Proof.
  intros Hd Hs. pose proof (py_round_div_nearest dist s Hs) as Hn.
  split; [unfold nearest_half_even in Hn; nia |].
  split.
  - intros H0. rewrite H0 in Hn. unfold nearest_half_even in Hn. lia.
  - intros Hle. apply (nearest_half_even_unique dist s _ 0 Hs Hn).
    unfold nearest_half_even.
    replace (0 * s - dist) with (- dist) by lia.
    rewrite Z.abs_opp, Z.abs_eq by lia.
    destruct (Z.eq_dec (2 * dist) s);
      [right; split; [lia | reflexivity] | left; lia].
Qed.





(** X4.  [end_drive] without a destination, against its precondition,
    does not raise: it leaves the driver idle and without a location,
    and from then on [get_travel_time] and [start_drive] of that driver
    raise AttributeError. *)
Theorem end_drive_without_destination (ds : Drivers) (self : ref) :
  driver.destination (ds self) = None ->
  let ds1 := driver.end_drive self ds in
  driver.location (ds1 self) = None /\
  driver.is_idle (ds1 self) = true /\
  (forall dest, driver.get_travel_time (ds1 self) dest = Raise AttributeError) /\
  (forall L, driver.start_drive self L ds1 = Raise AttributeError).
Proof.
  intros Hd ds1. subst ds1. unfold driver.end_drive.
  unfold driver.start_drive, driver.get_travel_time.
  rewrite !update_same. simpl. rewrite Hd. now repeat split.
Qed.

Lemma end_drive_without_destination_witness :
  driver.start_drive 0%nat (mkLocation 1 1)
    (driver.end_drive 0%nat (fun _ => bob))
  = Raise AttributeError.
Proof.
  now apply (end_drive_without_destination (fun _ => bob) 0%nat eq_refl).
Defined.

(** ** The dispatcher over several calls *)

Section Roster.

Variable ds : Drivers.

(** The identifiers of the drivers on a list. *)
Let names (l : list ref) : list string := map (fun d => driver.id (ds d)) l.

Lemma driver_in_names (d : ref) (l : list ref) :
  dispatcher.driver_in ds d l = false -> ~ In (driver.id (ds d)) (names l).
Proof.
  unfold dispatcher.driver_in, driver.Driver_eq, names. intros H Hin.
  apply in_map_iff in Hin as (x & He & Hx).
  assert (Ht : existsb (fun x => (driver.id (ds x) =? driver.id (ds d))%string)
                       l = true).
  { apply existsb_exists. exists x. split; [exact Hx |].
    now apply String.eqb_eq. }
  congruence.
Qed.

Lemma request_driver_roster (rs : Riders) (self self' : Dispatcher)
    (r : ref) (res : option ref) :
  dispatcher.request_driver ds rs self r = Ok (res, self') ->
  _driver_list self' = _driver_list self.
Proof.
  unfold dispatcher.request_driver.
  destruct (dispatcher.scan ds (_driver_list self)) as [[first any] found].
  destruct any; simpl.
  - destruct (dispatcher.closest_loop ds (rider.origin (rs r))
                (_driver_list self) first); simpl; [| discriminate].
    now intros [= <- <-].
  - now intros [= <- <-].
Qed.

(** What one call does to the roster. *)
Lemma do_call_roster (c : call) (st st' : Riders * Dispatcher) :
  do_call ds c st = Ok st' ->
  _driver_list (snd st') = _driver_list (snd st) \/
  exists d,
    c = request_rider_call d /\
    dispatcher.driver_in ds d (_driver_list (snd st)) = false /\
    _driver_list (snd st') = _driver_list (snd st) ++ [d].
Proof.
  destruct st as [rs dp]. destruct c as [r | d | r]; simpl.
  - destruct (dispatcher.request_driver ds rs dp r) as [[res dp'] |] eqn:E;
      simpl; [| discriminate].
    intros [= <-]. left. simpl. exact (request_driver_roster _ _ _ _ _ E).
  - intros [= <-]. simpl. rewrite request_rider_roster.
    destruct (dispatcher.driver_in ds d (_driver_list dp)) eqn:E;
      [now left | right; now exists d].
  - rewrite cancel_ride_unfold. intros [= <-]. simpl. left.
    now destruct (dispatcher.rider_in rs r (_waiting_list dp)).
Qed.

Lemma do_calls_roster (cs : list call) :
  forall st st',
    NoDup (names (_driver_list (snd st))) ->
    do_calls ds cs st = Ok st' ->
    NoDup (names (_driver_list (snd st'))) /\
    exists more,
      _driver_list (snd st') = _driver_list (snd st) ++ more /\
      forall d, In d more -> In (request_rider_call d) cs.
Proof.
  induction cs as [| c cs IH]; intros st st' Hnd; simpl.
  - intros [= <-]. split; [exact Hnd |]. exists [].
    split; [now rewrite app_nil_r | intros ? []].
  - destruct (do_call ds c st) as [st1 |] eqn:E; simpl; [| discriminate].
    intros Hrun.
    assert (Hnd1 : NoDup (names (_driver_list (snd st1)))).
    { destruct (do_call_roster c st st1 E) as [-> | (d & _ & Hout & ->)];
        [exact Hnd |].
      unfold names. rewrite map_app. simpl.
      apply NoDup_app; [exact Hnd | repeat constructor; intros [] |].
      intros a Ha [<- | []]. now apply (driver_in_names d _ Hout). }
    destruct (IH st1 st' Hnd1 Hrun) as (Hnd' & more & Hmore & Hfrom).
    split; [exact Hnd' |].
    destruct (do_call_roster c st st1 E) as [H1 | (d & -> & _ & H1)];
      rewrite H1 in Hmore.
    + exists more. split; [exact Hmore |].
      intros x Hx. right. now apply Hfrom.
    + exists (d :: more). split; [now rewrite <- app_assoc in Hmore |].
      intros x [<- | Hx]; [now left | right; now apply Hfrom].
Qed.

End Roster.

(** X5.  Over any calls of [request_driver], [request_rider] and
    [cancel_ride], the roster only grows at its end, what it gains are
    drivers that called [request_rider], and a roster without two drivers
    of one identifier (a new dispatcher's, say) stays so. *)
Theorem roster_grows_without_duplicates (ds : Drivers) (cs : list call)
    (rs rs' : Riders) (dp dp' : Dispatcher) :
  NoDup (map (fun d => driver.id (ds d)) (_driver_list dp)) ->
  do_calls ds cs (rs, dp) = Ok (rs', dp') ->
  NoDup (map (fun d => driver.id (ds d)) (_driver_list dp')) /\
  exists more,
    _driver_list dp' = _driver_list dp ++ more /\
    forall d, In d more -> In (request_rider_call d) cs.
Proof.
  intros Hnd Hrun.
  exact (do_calls_roster ds cs (rs, dp) (rs', dp') Hnd Hrun).
Qed.

Lemma roster_grows_without_duplicates_witness :
  exists rs' dp',
    do_calls (fun _ => bob)
      [request_rider_call 0%nat; request_driver_call 0%nat;
       request_rider_call 1%nat]
      (fun _ => bobby, dispatcher.new) = Ok (rs', dp') /\
    NoDup (map (fun d => driver.id ((fun _ => bob) d)) (_driver_list dp')).
Proof.
  do 2 eexists. split; [reflexivity |].
  eapply (roster_grows_without_duplicates (fun _ => bob)
            [request_rider_call 0%nat; request_driver_call 0%nat;
             request_rider_call 1%nat]
            (fun _ => bobby) _ dispatcher.new).
  - constructor.
  - reflexivity.
Defined.

Lemma Rider_eq_refl (r : Rider) : rider.Rider_eq r r = true.
Proof. unfold rider.Rider_eq. apply String.eqb_refl. Qed.

Lemma list_remove_last (rs : Riders) (r : ref) (l : list ref) :
  dispatcher.rider_in rs r l = false ->
  dispatcher.list_remove rs r (l ++ [r]) = l.
Proof.
  unfold dispatcher.rider_in.
  induction l as [| x l IH]; simpl; intros H.
  - now rewrite Rider_eq_refl.
  - apply orb_false_iff in H as [Hx Hl]. rewrite Hx. now rewrite IH.
Qed.

(** X6.  A rider who is not waiting, asks while no driver is idle and
    cancels: [request_driver] answers [None], and [cancel_ride] after it
    gives back the dispatcher as it was before the request, with the
    rider CANCELLED. *)
Theorem request_then_cancel_restores_dispatcher (ds : Drivers) (rs : Riders)
    (dp : Dispatcher) (r : ref) :
  (forall d, In d (_driver_list dp) -> driver.is_idle (ds d) = false) ->
  dispatcher.rider_in rs r (_waiting_list dp) = false ->
  exists dp1,
    dispatcher.request_driver ds rs dp r = Ok (None, dp1) /\
    dispatcher.rider_in rs r (_waiting_list dp1) = true /\
    snd (dispatcher.cancel_ride rs dp1 r) = dp /\
    rider.status (fst (dispatcher.cancel_ride rs dp1 r) r) = CANCELLED.
Proof.
  intros Hbusy Hout. eexists.
  split; [now apply request_driver_none_idle |].
  rewrite cancel_ride_unfold. simpl.
  assert (Hin : dispatcher.rider_in rs r (_waiting_list dp ++ [r]) = true).
  { unfold dispatcher.rider_in. rewrite existsb_app. simpl.
    now rewrite Rider_eq_refl, !orb_true_r. }
  rewrite Hin. simpl. rewrite (list_remove_last rs r _ Hout), update_same.
  split; [reflexivity |]. split; [now destruct dp | reflexivity].
Qed.

Lemma request_then_cancel_restores_dispatcher_witness :
  exists dp1,
    dispatcher.request_driver (fun _ => bob) (fun _ => bobby)
      dispatcher.new 0%nat = Ok (None, dp1) /\
    snd (dispatcher.cancel_ride (fun _ => bobby) dp1 0%nat) = dispatcher.new.
Proof.
  destruct (request_then_cancel_restores_dispatcher (fun _ => bob)
              (fun _ => bobby) dispatcher.new 0%nat)
    as (dp1 & Hreq & _ & Hback & _).
  - intros d [].
  - reflexivity.
  - exists dp1. split; [exact Hreq | exact Hback].
Defined.

(** X7.  [cancel_ride] a second time changes nothing, provided the
    waiting list held every identity at most once: riders and dispatcher
    are after the second call what they were after the first. *)
Theorem cancel_ride_twice (rs : Riders) (dp : Dispatcher) (r : ref) :
  waits_once rs (_waiting_list dp) ->
  let once := dispatcher.cancel_ride rs dp r in
  let twice := dispatcher.cancel_ride (fst once) (snd once) r in
  snd twice = snd once /\ forall x, fst twice x = fst once x.
Proof.
  intros Hw once twice. subst once twice.
  rewrite (cancel_ride_unfold (fst _)). rewrite !cancel_ride_unfold. simpl.
  rewrite (rider_in_same_ids rs _ r _ (set_status_keeps_id rs r CANCELLED)).
  split.
  - destruct (dispatcher.rider_in rs r (_waiting_list dp)) eqn:Ein.
    + destruct (list_remove_split rs r _ Ein)
        as (l1 & x & l2 & Hl & Hx & _ & Hrm).
      simpl. rewrite Hrm. rewrite Hl in Hw.
      now rewrite (waits_once_removed rs r x l1 l2 Hw Hx).
    + now rewrite Ein.
  - intros x. unfold update. destruct (Nat.eqb_spec x r) as [-> | _];
      [| reflexivity].
    now rewrite Nat.eqb_refl.
Qed.

Lemma cancel_ride_twice_witness :
  let once := dispatcher.cancel_ride (fun _ => bobby)
                (dispatcher.mkDispatcher [0%nat] []) 0%nat in
  snd (dispatcher.cancel_ride (fst once) (snd once) 0%nat) = snd once.
Proof.
  intros once.
  apply (cancel_ride_twice (fun _ => bobby)
           (dispatcher.mkDispatcher [0%nat] []) 0%nat).
  unfold waits_once. simpl. constructor; [intros [] | constructor].
Defined.

(** X8.  A rider put on the waiting list by [request_driver] is served
    after all riders who were waiting before: with no idle driver, as
    many [request_rider] calls as there are then riders on the list
    return the riders who waited before, in order, and this rider last. *)
Theorem request_driver_queues_behind (ds : Drivers) (rs : Riders)
    (dp : Dispatcher) (r : ref) (l : list ref) :
  (forall d, In d (_driver_list dp) -> driver.is_idle (ds d) = false) ->
  List.length l = S (List.length (_waiting_list dp)) ->
  exists dp1,
    dispatcher.request_driver ds rs dp r = Ok (None, dp1) /\
    fst (request_riders ds dp1 l) = map Some (_waiting_list dp ++ [r]) /\
    _waiting_list (snd (request_riders ds dp1 l)) = [].
Proof.
  intros Hbusy Hlen. eexists.
  split; [now apply request_driver_none_idle |].
  apply request_riders_fifo. simpl. rewrite length_app. simpl. lia.
Qed.

Lemma request_driver_queues_behind_witness :
  exists dp1,
    dispatcher.request_driver (fun _ => bob) (fun _ => bobby)
      (dispatcher.mkDispatcher [7%nat] []) 3%nat = Ok (None, dp1) /\
    fst (request_riders (fun _ => bob) dp1 [0%nat; 0%nat])
    = [Some 7%nat; Some 3%nat].
Proof.
  destruct (request_driver_queues_behind (fun _ => bob) (fun _ => bobby)
              (dispatcher.mkDispatcher [7%nat] []) 3%nat [0%nat; 0%nat])
    as (dp1 & Hreq & Hfifo & _).
  - intros d [].
  - reflexivity.
  - exists dp1. split; [exact Hreq | exact Hfifo].
Defined.

(** ** The other event handlers *)



(** X10.  A Dropoff never raises and yields exactly one event, a
    DriverRequest for its driver at its own timestamp.  The driver ends
    the ride: it is where it was heading, idle and without destination.
    Riders and dispatcher are not touched.  Only for a SATISFIED rider is
    anything notified: RIDER DROPOFF and then DRIVER DROPOFF, both at the
    rider's destination. *)
Theorem dropoff_events (t : Z) (r d : ref) (w : World) :
  exists w',
    event.Dropoff_do t r d w = Ok ([DriverRequest t d], w') /\
    w_drivers w' = driver.end_ride d (w_drivers w) /\
    driver.location (w_drivers w' d) = driver.destination (w_drivers w d) /\
    driver.destination (w_drivers w' d) = None /\
    driver.is_idle (w_drivers w' d) = true /\
    w_riders w' = w_riders w /\
    w_dispatcher w' = w_dispatcher w /\
    (rider.status (w_riders w r) = SATISFIED ->
     w_monitor w'
     = monitor.notify
         (monitor.notify (w_monitor w) t RIDER DROPOFF
            (rider.id (w_riders w r))
            (Some (rider.destination (w_riders w r))))
         t DRIVER DROPOFF (driver.id (w_drivers w d))
         (Some (rider.destination (w_riders w r)))) /\
    (rider.status (w_riders w r) <> SATISFIED -> w_monitor w' = w_monitor w).
Proof.
  run_handler. unfold driver.end_ride.
  destruct (rider.status (w_riders w r)) eqn:Es; simpl;
    (eexists; split; [reflexivity |]); simpl;
    rewrite !update_same; simpl;
    repeat split; try reflexivity; try discriminate;
    try (intros H; now contradiction H).
Qed.



(** ** The monitor's logs *)

Section Logs.

Context {V : Type}.

Lemma dict_mem_get (k : string) (d : monitor.Dict V) :
  monitor.dict_mem k d = false <-> dict_get k d = None.
Proof.
  unfold monitor.dict_mem.
  induction d as [| [k' v] d IH]; simpl; [tauto |].
  destruct (String.eqb k' k); simpl; [split; discriminate | exact IH].
Qed.

Lemma dict_get_modify (k k' : string) (f : V -> V) (d : monitor.Dict V) :
  dict_get k' (monitor.dict_modify k f d)
  = if String.eqb k k' then option_map f (dict_get k' d) else dict_get k' d.
Proof.
  induction d as [| [k0 v] d IH]; simpl.
  - now destruct (String.eqb k k').
  - destruct (String.eqb_spec k0 k) as [-> | Hne]; simpl.
    + destruct (String.eqb_spec k k'); reflexivity.
    + destruct (String.eqb_spec k0 k') as [-> | Hne'].
      * destruct (String.eqb_spec k k'); [congruence | reflexivity].
      * exact IH.
Qed.

Lemma dict_get_add (k k' : string) (v : V) (d : monitor.Dict V) :
  dict_get k' (monitor.dict_add k v d)
  = match dict_get k' d with
    | Some x => Some x
    | None => if String.eqb k k' then Some v else None
    end.
Proof.
  unfold monitor.dict_add.
  induction d as [| [k0 v0] d IH]; simpl; [reflexivity |].
  destruct (String.eqb k0 k'); [reflexivity | exact IH].
Qed.

Lemma dict_modify_keys (k : string) (f : V -> V) (d : monitor.Dict V) :
  map fst (monitor.dict_modify k f d) = map fst d.
Proof.
  induction d as [| [k0 v] d IH]; simpl; [reflexivity |].
  destruct (String.eqb k0 k); simpl; [reflexivity | now rewrite IH].
Qed.

Lemma dict_mem_keys (k : string) (d : monitor.Dict V) :
  monitor.dict_mem k d = false -> ~ In k (map fst d).
Proof.
  unfold monitor.dict_mem. intros H Hin.
  apply in_map_iff in Hin as ([k0 v] & He & Hx). simpl in He. subst k0.
  assert (existsb (fun kv : string * V => String.eqb (fst kv) k) d = true).
  { apply existsb_exists. exists (k, v). split; [exact Hx |].
    apply String.eqb_refl. }
  congruence.
Qed.

End Logs.

(** The logs after [notify]. *)
Lemma log_of_notify (m : Monitor) (t : Z) (c c' : Category)
    (descr : Description) (i i' : string) (loc : option Location) :
  log_of (monitor.notify m t c descr i loc) c' i'
  = log_of m c' i'
    ++ (if Category_eqb c c' && String.eqb i i'
        then [mkActivity t descr i loc] else []).
Proof.
  unfold log_of, monitor.notify.
  destruct c, c'; simpl; try now rewrite app_nil_r.
  - rewrite dict_get_modify.
    destruct (String.eqb_spec i i') as [<- | Hne]; simpl.
    + destruct (monitor.dict_mem i (monitor.rider_activities m)) eqn:E;
        simpl.
      * destruct (dict_get i (monitor.rider_activities m)) eqn:G;
          [reflexivity |].
        apply dict_mem_get in G. congruence.
      * rewrite dict_get_add, String.eqb_refl.
        apply dict_mem_get in E. now rewrite E.
    + destruct (monitor.dict_mem i (monitor.rider_activities m)); simpl;
        [now rewrite app_nil_r |].
      rewrite dict_get_add.
      destruct (String.eqb_spec i i'); [contradiction |].
      rewrite app_nil_r. now destruct (dict_get i' _).
  - rewrite dict_get_modify.
    destruct (String.eqb_spec i i') as [<- | Hne]; simpl.
    + destruct (monitor.dict_mem i (monitor.driver_activities m)) eqn:E;
        simpl.
      * destruct (dict_get i (monitor.driver_activities m)) eqn:G;
          [reflexivity |].
        apply dict_mem_get in G. congruence.
      * rewrite dict_get_add, String.eqb_refl.
        apply dict_mem_get in E. now rewrite E.
    + destruct (monitor.dict_mem i (monitor.driver_activities m)); simpl;
        [now rewrite app_nil_r |].
      rewrite dict_get_add.
      destruct (String.eqb_spec i i'); [contradiction |].
      rewrite app_nil_r. now destruct (dict_get i' _).
Qed.

Lemma notify_keys (m : Monitor) (t : Z) (c c' : Category)
    (descr : Description) (i : string) (loc : option Location) :
  NoDup (map fst (monitor._activities m c')) ->
  NoDup (map fst (monitor._activities (monitor.notify m t c descr i loc) c')).
Proof.
  intros Hnd. unfold monitor.notify.
  assert (Hadd : forall d : monitor.Dict (list Activity),
             NoDup (map fst d) ->
             NoDup (map fst
                      (monitor.dict_modify i
                         (fun l => l ++ [mkActivity t descr i loc])
                         (if negb (monitor.dict_mem i d)
                          then monitor.dict_add i [] d else d)))).
  { intros d Hd. rewrite dict_modify_keys.
    destruct (monitor.dict_mem i d) eqn:E; simpl; [exact Hd |].
    unfold monitor.dict_add. rewrite map_app. simpl.
    apply NoDup_app; [exact Hd | repeat constructor; intros [] |].
    intros a Ha [<- | []]. now apply (dict_mem_keys i d E). }
  destruct c, c'; simpl in *; try exact Hnd; now apply Hadd.
Qed.

(** X12.  [notify] appends the activity to the log of the actor it names
    in the category it names, a log that is empty when the actor is new,
    and leaves the log of every other actor and the other category as it
    was; no actor gets a second log. *)
Theorem notify_appends_to_one_log (m : Monitor) (t : Z) (c : Category)
    (descr : Description) (i : string) (loc : option Location) :
  let m' := monitor.notify m t c descr i loc in
  log_of m' c i = log_of m c i ++ [mkActivity t descr i loc] /\
  (forall c' i', (c' <> c \/ i' <> i) -> log_of m' c' i' = log_of m c' i') /\
  (monitor.dict_mem i (monitor._activities m c) = false ->
   log_of m' c i = [mkActivity t descr i loc]) /\
  (forall c', NoDup (map fst (monitor._activities m c')) ->
              NoDup (map fst (monitor._activities m' c'))).
Proof.
  intros m'. subst m'. split; [| split; [| split]].
  - rewrite log_of_notify, String.eqb_refl. now destruct c.
  - intros c' i' Hne. rewrite log_of_notify.
    destruct (String.eqb_spec i i') as [<- | _].
    + destruct Hne as [Hne | Hne]; [| contradiction].
      destruct c, c'; simpl; try now rewrite app_nil_r.
      all: now contradiction Hne.
    + rewrite andb_false_r. now rewrite app_nil_r.
  - intros Hnew. rewrite log_of_notify, String.eqb_refl.
    apply dict_mem_get in Hnew. unfold log_of. rewrite Hnew.
    now destruct c.
  - intros c'. apply notify_keys.
Qed.

Lemma notify_appends_to_one_log_witness :
  log_of (monitor.notify
            (monitor.notify monitor.new 0 RIDER REQUEST "bobby" None)
            3 RIDER CANCEL "bobby" None)
         RIDER "bobby"
  = [mkActivity 0 REQUEST "bobby" None; mkActivity 3 CANCEL "bobby" None].
Proof.
  destruct (notify_appends_to_one_log
              (monitor.notify monitor.new 0 RIDER REQUEST "bobby" None)
              3 RIDER CANCEL "bobby" None) as [H _].
  rewrite H.
  destruct (notify_appends_to_one_log monitor.new 0 RIDER REQUEST "bobby"
              None) as (_ & _ & Hnew & _).
  now rewrite (Hnew eq_refl).
Defined.

(** ** What no event changes *)

Section Kept.

Lemma riders_kept_refl (rs : Riders) : riders_kept rs rs.
Proof. intros x. now repeat split. Qed.

Lemma riders_kept_trans (rs1 rs2 rs3 : Riders) :
  riders_kept rs1 rs2 -> riders_kept rs2 rs3 -> riders_kept rs1 rs3.
Proof.
  intros H12 H23 x.
  destruct (H12 x) as [(Ha & Hb & Hc & Hd) Hs].
  destruct (H23 x) as [(Ha' & Hb' & Hc' & Hd') Hs'].
  split; [repeat split; congruence |].
  intros Hw. rewrite Hs' by (rewrite Hs; assumption). now apply Hs.
Qed.

Lemma riders_kept_status (rs : Riders) (r : ref) (s : Status) :
  rider.status (rs r) = WAITING \/ rider.status (rs r) = s ->
  riders_kept rs (update rs r (rider.set_status s (rs r))).
Proof.
  intros Hst x. unfold update.
  destruct (Nat.eqb_spec x r) as [-> | _]; simpl; [| now repeat split].
  split; [now repeat split |].
  intros Hw. destruct Hst as [Hst | Hst]; congruence.
Qed.

Lemma riders_kept_cancel (rs : Riders) (dp : Dispatcher) (r : ref) :
  rider.status (rs r) <> SATISFIED ->
  riders_kept rs (fst (dispatcher.cancel_ride rs dp r)).
Proof.
  intros Hst. rewrite cancel_ride_unfold. simpl.
  apply riders_kept_status.
  destruct (rider.status (rs r)); [now left | now right | contradiction].
Qed.

Lemma drivers_kept_refl (ds : Drivers) : drivers_kept ds ds.
Proof. intros d. split; [split; reflexivity | auto]. Qed.

Lemma drivers_kept_trans (ds1 ds2 ds3 : Drivers) :
  drivers_kept ds1 ds2 -> drivers_kept ds2 ds3 -> drivers_kept ds1 ds3.
Proof.
  intros H12 H23 d.
  destruct (H12 d) as [[Ha Hb] Ht]. destruct (H23 d) as [[Ha' Hb'] Ht'].
  split; [split; congruence | auto].
Qed.

(** The driver that replaces the one behind [d] has its identifier and
    speed and is idle exactly when it has no destination. *)
Lemma drivers_kept_update (ds : Drivers) (d : ref) (d' : Driver) :
  driver.id d' = driver.id (ds d) ->
  driver.speed d' = driver.speed (ds d) ->
  tidy d' ->
  drivers_kept ds (update ds d d').
Proof.
  intros Hi Hs Ht x. unfold update.
  destruct (Nat.eqb_spec x d) as [-> | _].
  - split; [split; assumption | auto].
  - split; [split; reflexivity | auto].
Qed.

Lemma drivers_kept_start_drive (ds ds' : Drivers) (d : ref) (loc : Location)
    (t : Z) :
  driver.start_drive d loc ds = Ok (t, ds') -> drivers_kept ds ds'.
Proof.
  unfold driver.start_drive.
  destruct (driver.get_travel_time _ _); simpl; [| discriminate].
  intros [= _ <-]. apply drivers_kept_update; try reflexivity.
  unfold tidy. simpl. split; discriminate.
Qed.

Lemma drivers_kept_start_ride (ds ds' : Drivers) (d : ref) (r : Rider)
    (t : Z) :
  driver.start_ride d r ds = Ok (t, ds') -> drivers_kept ds ds'.
Proof.
  unfold driver.start_ride.
  destruct (driver.get_travel_time _ _); simpl; [| discriminate].
  intros [= _ <-]. apply drivers_kept_update; try reflexivity.
  unfold tidy. simpl. split; discriminate.
Qed.

Lemma drivers_kept_end_drive (ds : Drivers) (d : ref) :
  drivers_kept ds (driver.end_drive d ds).
Proof.
  unfold driver.end_drive. apply drivers_kept_update; try reflexivity.
  unfold tidy. simpl. now split.
Qed.

Lemma drivers_kept_end_ride (ds : Drivers) (d : ref) :
  drivers_kept ds (driver.end_ride d ds).
Proof.
  unfold driver.end_ride. apply drivers_kept_update; try reflexivity.
  unfold tidy. simpl. now split.
Qed.

Lemma logs_kept_refl (m : Monitor) : logs_kept m m.
Proof. intros c i. exists []. now rewrite app_nil_r. Qed.

Lemma logs_kept_trans (m1 m2 m3 : Monitor) :
  logs_kept m1 m2 -> logs_kept m2 m3 -> logs_kept m1 m3.
Proof.
  intros H12 H23 c i.
  destruct (H12 c i) as [a Ha]. destruct (H23 c i) as [b Hb].
  exists (a ++ b). now rewrite Hb, Ha, app_assoc.
Qed.

Lemma logs_kept_notify (m : Monitor) (t : Z) (c : Category)
    (descr : Description) (i : string) (loc : option Location) :
  logs_kept m (monitor.notify m t c descr i loc).
Proof. intros c' i'. rewrite log_of_notify. now eauto. Qed.

Lemma evolves_parts (w : World) (ds : Drivers) (rs : Riders)
    (dp : Dispatcher) (m : Monitor) :
  drivers_kept (w_drivers w) ds ->
  riders_kept (w_riders w) rs ->
  (exists more, _driver_list dp = _driver_list (w_dispatcher w) ++ more) ->
  logs_kept (w_monitor w) m ->
  evolves w (mkWorld ds rs dp m).
Proof.
  intros Hd Hr Hdp Hm. constructor; simpl; try assumption.
  - intros x. apply Hr.
  - intros x. apply Hr.
  - intros d. apply Hd.
  - intros d. apply Hd.
Qed.

Lemma evolves_refl (w : World) : evolves w w.
Proof.
  destruct w. apply evolves_parts; simpl.
  - apply drivers_kept_refl.
  - apply riders_kept_refl.
  - exists []. now rewrite app_nil_r.
  - apply logs_kept_refl.
Qed.

Lemma evolves_trans (w1 w2 w3 : World) :
  evolves w1 w2 -> evolves w2 w3 -> evolves w1 w3.
Proof.
  intros [R1 S1 D1 T1 [a Ha] L1] [R2 S2 D2 T2 [b Hb] L2].
  constructor.
  - intros x. destruct (R1 x) as (? & ? & ? & ?).
    destruct (R2 x) as (? & ? & ? & ?). repeat split; congruence.
  - intros x Hx. rewrite S2 by (rewrite S1; assumption). now apply S1.
  - intros d. destruct (D1 d), (D2 d). split; congruence.
  - intros d Hd. now apply T2, T1.
  - exists (a ++ b). now rewrite Hb, Ha, app_assoc.
  - intros c i. destruct (L1 c i) as [x Hx]. destruct (L2 c i) as [y Hy].
    exists (x ++ y). now rewrite Hy, Hx, app_assoc.
Qed.

Local Arguments monitor.notify : simpl never.
Local Arguments driver.end_drive : simpl never.
Local Arguments driver.end_ride : simpl never.
Local Arguments dispatcher.request_rider : simpl never.
Local Arguments dispatcher.cancel_ride : simpl never.
Local Arguments update : simpl never.

Ltac kept :=
  repeat first
    [ apply drivers_kept_refl | apply riders_kept_refl | apply logs_kept_refl
    | apply logs_kept_notify | apply drivers_kept_end_drive
    | apply drivers_kept_end_ride
    | eapply logs_kept_trans; [apply logs_kept_notify |]
    | (exists []; now rewrite app_nil_r) ].

(** Every handler keeps to [evolves]. *)
Lemma do_evolves (e : Event) (w w' : World) (evs : list Event) :
  event.do e w = Ok (evs, w') -> evolves w w'.
Proof.
  destruct e as [t r | t d | t r | t r d | t r d]; simpl.
  - (* RiderRequest *)
    run_handler.
    destruct (dispatcher.request_driver _ _ _ _) as [[[c |] dp] |] eqn:E;
      simpl; [| | discriminate].
    + destruct (driver.start_drive _ _ _) as [[tt ds] |] eqn:E2; simpl;
        [| discriminate].
      intros [= <- <-]. apply evolves_parts; simpl; kept.
      * exact (drivers_kept_start_drive _ _ _ _ _ E2).
      * exists []. rewrite app_nil_r.
        exact (request_driver_roster _ _ _ _ _ _ E).
    + intros [= <- <-]. apply evolves_parts; simpl; kept.
      exists []. rewrite app_nil_r.
      exact (request_driver_roster _ _ _ _ _ _ E).
  - (* DriverRequest *)
    run_handler.
    pose proof (request_rider_roster (w_drivers w) (w_dispatcher w) d) as Hr.
    destruct (dispatcher.request_rider _ _ _) as [[r |] dp]; simpl in *.
    + destruct (driver.start_drive _ _ _) as [[tt ds] |] eqn:E2; simpl;
        [| discriminate].
      intros [= <- <-]. apply evolves_parts; simpl; kept.
      * exact (drivers_kept_start_drive _ _ _ _ _ E2).
      * rewrite Hr. destruct (dispatcher.driver_in _ _ _);
          [exists []; now rewrite app_nil_r | now eauto].
    + intros [= <- <-]. apply evolves_parts; simpl; kept.
      rewrite Hr. destruct (dispatcher.driver_in _ _ _);
        [exists []; now rewrite app_nil_r | now eauto].
  - (* Cancellation *)
    run_handler.
    destruct (Status_eqb (rider.status (w_riders w r)) WAITING) eqn:Es;
      simpl; [| intros [= <- <-]; apply evolves_refl].
    apply Status_eqb_eq in Es.
    set (rs1 := update (w_riders w) r
                  (rider.set_status CANCELLED (w_riders w r))).
    pose proof (riders_kept_cancel rs1 (w_dispatcher w) r) as Hc.
    pose proof (cancel_ride_unfold rs1 (w_dispatcher w) r) as Hu.
    destruct (dispatcher.cancel_ride rs1 (w_dispatcher w) r) as [rs2 dp2].
    simpl in *. intros [= <- <-]. apply evolves_parts; simpl; kept.
    + eapply riders_kept_trans; [| apply Hc].
      * apply riders_kept_status. now left.
      * subst rs1. rewrite update_same. discriminate.
    + injection Hu as _ ->.
      destruct (dispatcher.rider_in rs1 r _); simpl;
        exists []; now rewrite app_nil_r.
  - (* Pickup *)
    run_handler.
    destruct (Status_eqb (rider.status (w_riders w r)) WAITING) eqn:Es;
      simpl.
    + apply Status_eqb_eq in Es.
      destruct (driver.start_ride _ _ _) as [[tt ds] |] eqn:E2; simpl;
        [| discriminate].
      intros [= <- <-]. apply evolves_parts; simpl; kept.
      * eapply drivers_kept_trans; [apply drivers_kept_end_drive |].
        exact (drivers_kept_start_ride _ _ _ _ _ E2).
      * apply riders_kept_status. now left.
    + destruct (Status_eqb (rider.status (w_riders w r)) CANCELLED); simpl;
        intros [= <- <-]; apply evolves_parts; simpl; kept.
  - (* Dropoff *)
    run_handler.
    destruct (Status_eqb (rider.status (w_riders w r)) SATISFIED); simpl;
      intros [= <- <-]; apply evolves_parts; simpl; kept.
Qed.

End Kept.

(** The loop of [run] keeps to [evolves] from its first world to its last. *)
Lemma loop_evolves (fuel : nat) :
  forall (q : PriorityQueue Event) (w w' : World),
    simulation.loop fuel q w = Ok (Some w') -> evolves w w'.
Proof.
  induction fuel as [| fuel IH]; intros q w w'; simpl.
  - destruct (container.is_empty q); [| discriminate].
    intros [= <-]. apply evolves_refl.
  - destruct (container.is_empty q); [intros [= <-]; apply evolves_refl |].
    destruct (container.remove q) as [[task q'] |]; simpl; [| discriminate].
    destruct (event.do task w) as [[new_event w1] |] eqn:E; simpl;
      [| discriminate].
    intros Hloop. eapply evolves_trans; [exact (do_evolves _ _ _ _ E) |].
    exact (IH _ _ _ Hloop).
Qed.

(** X13.  No event, and so no run of the simulation, takes a rider out of
    SATISFIED or CANCELLED, and none changes a rider's identifier,
    patience, origin or destination: only the status of a WAITING rider
    changes. *)
Theorem riders_settle (w w' : World) :
  (exists e evs, event.do e w = Ok (evs, w')) \/
  (exists fuel q, simulation.loop fuel q w = Ok (Some w')) ->
  forall x,
    (rider.status (w_riders w x) <> WAITING ->
     rider.status (w_riders w' x) = rider.status (w_riders w x)) /\
    rider.id (w_riders w' x) = rider.id (w_riders w x) /\
    rider.patience (w_riders w' x) = rider.patience (w_riders w x) /\
    rider.origin (w_riders w' x) = rider.origin (w_riders w x) /\
    rider.destination (w_riders w' x) = rider.destination (w_riders w x).
Proof.
  intros H x.
  assert (He : evolves w w').
  { destruct H as [(e & evs & H) | (fuel & q & H)];
      [exact (do_evolves _ _ _ _ H) | exact (loop_evolves _ _ _ _ H)]. }
  split; [apply (status_settled w w' He) | apply (rider_fixed w w' He)].
Qed.

(** The rider of the scenario is SATISFIED at the Pickup, and the
    Cancellation of time 100 finds and leaves it so. *)
Lemma riders_settle_witness :
  let w := mkWorld (fun _ => bob)
             (fun _ => rider.set_status SATISFIED bobby)
             dispatcher.new monitor.new in
  exists w',
    simulation.loop 1 (simulation.add_new_events container.new
                         [Cancellation 100 0%nat]) w = Ok (Some w') /\
    rider.status (w_riders w' 0%nat) = rider.status (w_riders w 0%nat).
Proof.
  intros w.
  assert (Hloop : simulation.loop 1
                    (simulation.add_new_events container.new
                       [Cancellation 100 0%nat]) w = Ok (Some w))
    by reflexivity.
  exists w. split; [exact Hloop |].
  apply (riders_settle w w (or_intror (ex_intro _ 1%nat
           (ex_intro _ _ Hloop))) 0%nat).
  discriminate.
Defined.

(** X14.  No event, and so no run of the simulation, changes the
    identifier or the speed of a driver, and a driver that is idle
    exactly when it has no destination is so afterwards. *)
Theorem drivers_stay_consistent (w w' : World) :
  (exists e evs, event.do e w = Ok (evs, w')) \/
  (exists fuel q, simulation.loop fuel q w = Ok (Some w')) ->
  forall d,
    driver.id (w_drivers w' d) = driver.id (w_drivers w d) /\
    driver.speed (w_drivers w' d) = driver.speed (w_drivers w d) /\
    (tidy (w_drivers w d) -> tidy (w_drivers w' d)).
Proof.
  intros H d.
  assert (He : evolves w w').
  { destruct H as [(e & evs & H) | (fuel & q & H)];
      [exact (do_evolves _ _ _ _ H) | exact (loop_evolves _ _ _ _ H)]. }
  destruct (driver_fixed w w' He d) as [Hi Hs].
  split; [exact Hi |]. split; [exact Hs | apply (driver_tidy w w' He)].
Qed.

Lemma drivers_stay_consistent_witness :
  exists w',
    simulation.loop 20
      (simulation.add_new_events container.new
         [DriverRequest 0 0%nat; RiderRequest 0 0%nat])
      (simulation._world scenario) = Ok (Some w') /\
    tidy (w_drivers w' 0%nat).
Proof.
  assert (Hloop : exists w',
             simulation.loop 20
               (simulation.add_new_events container.new
                  [DriverRequest 0 0%nat; RiderRequest 0 0%nat])
               (simulation._world scenario) = Ok (Some w'))
    by (eexists; vm_compute; reflexivity).
  destruct Hloop as [w' Hloop]. exists w'. split; [exact Hloop |].
  apply (drivers_stay_consistent (simulation._world scenario) w').
  - right. exists 20%nat. eexists. exact Hloop.
  - unfold tidy. simpl. now split.
Defined.

(** X15.  No event, and so no run of the simulation, takes a driver off
    the roster or moves it within the roster, and none removes or alters
    an activity that the monitor has logged: rosters and logs only grow
    at their ends. *)
Theorem roster_and_logs_only_grow (w w' : World) :
  (exists e evs, event.do e w = Ok (evs, w')) \/
  (exists fuel q, simulation.loop fuel q w = Ok (Some w')) ->
  (exists more,
      _driver_list (w_dispatcher w') = _driver_list (w_dispatcher w) ++ more)
  /\
  (forall c i, exists more,
      log_of (w_monitor w') c i = log_of (w_monitor w) c i ++ more).
Proof.
  intros H.
  assert (He : evolves w w').
  { destruct H as [(e & evs & H) | (fuel & q & H)];
      [exact (do_evolves _ _ _ _ H) | exact (loop_evolves _ _ _ _ H)]. }
  split; [apply (roster_grows w w' He) | apply (logs_grow w w' He)].
Qed.

Lemma roster_and_logs_only_grow_witness :
  exists w',
    event.do (DriverRequest 0 0%nat) (simulation._world scenario)
    = Ok ([], w') /\
    exists more, _driver_list (w_dispatcher w') = [] ++ more.
Proof.
  eexists. split; [reflexivity |].
  eapply (roster_and_logs_only_grow (simulation._world scenario)).
  left. exists (DriverRequest 0 0%nat), []. reflexivity.
Defined.

(** ** Time *)

Lemma get_travel_time_not_negative (d : Driver) (dest : option Location)
    (t : Z) :
  0 < driver.speed d ->
  driver.get_travel_time d dest = Ok t -> 0 <= t.
Proof.
  intros Hs. unfold driver.get_travel_time, manhattan_distance.
  destruct (driver.location d) as [l |], dest as [l' |]; simpl;
    try discriminate.
  destruct (Z.eqb_spec (driver.speed d) 0); [discriminate |].
  intros [= <-]. apply travel_time_not_negative; lia.
Qed.

Lemma start_drive_not_negative (ds ds' : Drivers) (d : ref) (loc : Location)
    (t : Z) :
  0 < driver.speed (ds d) ->
  driver.start_drive d loc ds = Ok (t, ds') -> 0 <= t.
Proof.
  intros Hs. unfold driver.start_drive.
  destruct (driver.get_travel_time _ _) as [t' |] eqn:E; simpl;
    [| discriminate].
  intros [= <- _]. now apply get_travel_time_not_negative in E.
Qed.

Lemma start_ride_not_negative (ds ds' : Drivers) (d : ref) (r : Rider)
    (t : Z) :
  0 < driver.speed (ds d) ->
  driver.start_ride d r ds = Ok (t, ds') -> 0 <= t.
Proof.
  intros Hs. unfold driver.start_ride.
  destruct (driver.get_travel_time _ _) as [t' |] eqn:E; simpl;
    [| discriminate].
  intros [= <- _]. now apply get_travel_time_not_negative in E.
Qed.

Section Spawned.

Local Arguments monitor.notify : simpl never.
Local Arguments driver.end_drive : simpl never.
Local Arguments driver.end_ride : simpl never.
Local Arguments dispatcher.request_rider : simpl never.
Local Arguments dispatcher.cancel_ride : simpl never.

(** The events a handler yields are not due before the handler's own
    event. *)
Lemma do_later (e : Event) (w w' : World) (evs : list Event) :
  (forall d, 0 < driver.speed (w_drivers w d)) ->
  (forall r, 0 <= rider.patience (w_riders w r)) ->
  event.do e w = Ok (evs, w') ->
  forall e', In e' evs -> event.timestamp e <= event.timestamp e'.
Proof.
  intros Hs Hp.
  destruct e as [t r | t d | t r | t r d | t r d]; simpl.
  - run_handler.
    destruct (dispatcher.request_driver _ _ _ _) as [[[c |] dp] |];
      simpl; [| | discriminate].
    + destruct (driver.start_drive _ _ _) as [[tt ds] |] eqn:E; simpl;
        [| discriminate].
      apply start_drive_not_negative in E; [| apply Hs].
      intros [= <- _] e' [<- | [<- | []]]; simpl; [lia |].
      specialize (Hp r). lia.
    + intros [= <- _] e' [<- | []]. simpl. specialize (Hp r). lia.
  - run_handler.
    destruct (dispatcher.request_rider _ _ _) as [[r |] dp]; simpl.
    + destruct (driver.start_drive _ _ _) as [[tt ds] |] eqn:E; simpl;
        [| discriminate].
      apply start_drive_not_negative in E; [| apply Hs].
      intros [= <- _] e' [<- | []]. simpl. lia.
    + intros [= <- _] e' [].
  - run_handler.
    destruct (Status_eqb (rider.status (w_riders w r)) WAITING); simpl.
    + destruct (dispatcher.cancel_ride _ _ _). simpl.
      intros [= <- _] e' [].
    + intros [= <- _] e' [].
  - run_handler.
    destruct (Status_eqb (rider.status (w_riders w r)) WAITING); simpl.
    + destruct (driver.start_ride _ _ _) as [[tt ds] |] eqn:E; simpl;
        [| discriminate].
      apply start_ride_not_negative in E.
      * intros [= <- _] e' [<- | []]. simpl. lia.
      * destruct (drivers_kept_end_drive (w_drivers w) d d) as [[_ ->] _].
        apply Hs.
    + destruct (Status_eqb (rider.status (w_riders w r)) CANCELLED); simpl;
        intros [= <- _] e'; [intros [<- | []]; simpl; lia | intros []].
  - run_handler.
    destruct (Status_eqb (rider.status (w_riders w r)) SATISFIED); simpl;
      intros [= <- _] e' [<- | []]; simpl; lia.
Qed.

End Spawned.

(** X16.  With drivers of positive speed and riders of patience that is
    not negative, no handler yields an event with a timestamp below that
    of the event it handles. *)
Theorem handlers_schedule_no_earlier (e : Event) (w w' : World)
    (evs : list Event) :
  (forall d, 0 < driver.speed (w_drivers w d)) ->
  (forall r, 0 <= rider.patience (w_riders w r)) ->
  event.do e w = Ok (evs, w') ->
  Forall (fun e' => event.timestamp e <= event.timestamp e') evs.
Proof.
  intros Hs Hp Hdo. apply Forall_forall.
  exact (do_later e w w' evs Hs Hp Hdo).
Qed.

Lemma handlers_schedule_no_earlier_witness :
  exists evs w',
    event.do (RiderRequest 3 0%nat)
      (mkWorld (fun _ => bob) (fun _ => bobby)
         (dispatcher.mkDispatcher [] [0%nat]) monitor.new)
    = Ok (evs, w') /\
    Forall (fun e' => 3 <= event.timestamp e') evs.
Proof.
  do 2 eexists. split; [reflexivity |].
  eapply (handlers_schedule_no_earlier (RiderRequest 3 0%nat)
            (mkWorld (fun _ => bob) (fun _ => bobby)
               (dispatcher.mkDispatcher [] [0%nat]) monitor.new)).
  - intros d. reflexivity.
  - intros r. discriminate.
  - reflexivity.
Defined.

Section Ordered.

Let no_later (a b : Event) : Prop := event.timestamp a <= event.timestamp b.

Lemma insert_in_order (e : Event) (l : list Event) :
  StronglySorted no_later l ->
  StronglySorted no_later (container.insert event.timestamp e l).
Proof.
  induction l as [| x l IH]; intros Hs; simpl.
  - repeat constructor.
  - apply StronglySorted_inv in Hs as [Hl Hx].
    rewrite Forall_forall in Hx.
    destruct (Z.ltb_spec (event.timestamp e) (event.timestamp x))
      as [Hlt | Hge].
    + constructor; [constructor; [exact Hl | now apply Forall_forall] |].
      apply Forall_forall. intros y [<- | Hy]; unfold no_later in *; [lia |].
      specialize (Hx y Hy). lia.
    + constructor; [now apply IH |].
      apply Forall_forall. intros y Hy.
      apply in_insert in Hy as [-> | Hy]; [exact Hge | now apply Hx].
Qed.

Lemma add_new_events_in_order (evs : list Event) :
  forall q : PriorityQueue Event,
    StronglySorted no_later (_items q) ->
    StronglySorted no_later (_items (simulation.add_new_events q evs)).
Proof.
  unfold simulation.add_new_events.
  induction evs as [| e evs IH]; intros q Hq; simpl; [exact Hq |].
  apply IH. simpl. now apply insert_in_order.
Qed.

Lemma add_new_events_in (evs : list Event) :
  forall (q : PriorityQueue Event) (z : Event),
    In z (_items (simulation.add_new_events q evs)) <->
    In z (_items q) \/ In z evs.
Proof.
  unfold simulation.add_new_events.
  induction evs as [| e evs IH]; intros q z; simpl; [tauto |].
  rewrite IH. simpl. rewrite in_insert. intuition congruence.
Qed.

(** The loop with its record finishes when the loop does. *)
Lemma executed_of_loop (fuel : nat) :
  forall (q : PriorityQueue Event) (w : World),
    match simulation.loop fuel q w with
    | Ok _ => exists trace, executed fuel q w = Ok trace
    | Raise e => executed fuel q w = Raise e
    end.
Proof.
  induction fuel as [| fuel IH]; intros q w; simpl.
  - destruct (container.is_empty q); now eauto.
  - destruct (container.is_empty q); [now eauto |].
    destruct (container.remove q) as [[task q'] |]; simpl; [| reflexivity].
    destruct (event.do task w) as [[new_event w1] |]; simpl; [| reflexivity].
    specialize (IH (simulation.add_new_events q' new_event) w1).
    destruct (simulation.loop fuel _ w1); simpl.
    + destruct IH as [trace ->]. simpl. now eauto.
    + now rewrite IH.
Qed.

Lemma executed_in_order (fuel : nat) :
  forall (q : PriorityQueue Event) (w : World) (trace : list Event),
    StronglySorted no_later (_items q) ->
    (forall d, 0 < driver.speed (w_drivers w d)) ->
    (forall r, 0 <= rider.patience (w_riders w r)) ->
    executed fuel q w = Ok trace ->
    StronglySorted no_later trace /\
    forall lo,
      (forall x, In x (_items q) -> lo <= event.timestamp x) ->
      forall e, In e trace -> lo <= event.timestamp e.
Proof.
  induction fuel as [| fuel IH]; intros q w trace Hq Hs Hp; simpl.
  - destruct (container.is_empty q); intros [= <-];
      (split; [constructor | intros lo _ e []]).
  - destruct (container.is_empty q);
      [intros [= <-]; split; [constructor | intros lo _ e []] |].
    unfold container.remove.
    destruct (_items q) as [| task rest] eqn:Eq; simpl; [discriminate |].
    destruct (event.do task w) as [[new_event w1] |] eqn:Edo; simpl;
      [| discriminate].
    destruct (executed fuel _ w1) as [trace1 |] eqn:Ex; simpl;
      [| discriminate].
    intros [= <-].
    apply StronglySorted_inv in Hq as [Hrest Htask].
    rewrite Forall_forall in Htask.
    pose proof (do_evolves _ _ _ _ Edo) as Hev.
    destruct (IH (simulation.add_new_events
                    (container.mkPriorityQueue rest) new_event) w1 trace1)
      as [Hsorted Hlow]; [| | | exact Ex |].
    + now apply add_new_events_in_order.
    + intros d. destruct (driver_fixed _ _ Hev d) as [_ ->]. apply Hs.
    + intros r. destruct (rider_fixed _ _ Hev r) as (_ & -> & _). apply Hp.
    + assert (Hafter : forall e, In e trace1 -> no_later task e).
      { apply (Hlow (event.timestamp task)). intros x Hx.
        apply add_new_events_in in Hx as [Hx | Hx]; simpl in Hx.
        - now apply Htask.
        - exact (do_later task w w1 new_event Hs Hp Edo x Hx). }
      split.
      * constructor; [exact Hsorted | now apply Forall_forall].
      * intros lo Hlo e [<- | He]; [apply Hlo; now left |].
        specialize (Hafter e He). specialize (Hlo task (or_introl eq_refl)).
        unfold no_later in Hafter. lia.
Qed.

End Ordered.

(** X17.  [run] executes events in the order of their timestamps.  With
    drivers of positive speed and riders of patience that is not
    negative, and the event queue as the specification describes it, the
    events the loop executes, initial and spawned, come with timestamps
    that never decrease, and none is executed at a time before the
    earliest initial event. *)
Theorem run_executes_in_timestamp_order (fuel : nat)
    (initial_events : list Event) (w : World) :
  (forall d, 0 < driver.speed (w_drivers w d)) ->
  (forall r, 0 <= rider.patience (w_riders w r)) ->
  let q := simulation.add_new_events container.new initial_events in
  (forall res, simulation.loop fuel q w = Ok res ->
               exists trace, executed fuel q w = Ok trace) /\
  (forall trace,
      executed fuel q w = Ok trace ->
      StronglySorted
        (fun a b => event.timestamp a <= event.timestamp b) trace /\
      forall lo,
        (forall x, In x initial_events -> lo <= event.timestamp x) ->
        forall e, In e trace -> lo <= event.timestamp e).
Proof.
  intros Hs Hp q. split.
  - intros res Hloop. pose proof (executed_of_loop fuel q w) as H.
    now rewrite Hloop in H.
  - intros trace Hex.
    destruct (executed_in_order fuel q w trace) as [Hsorted Hlow];
      try assumption.
    + subst q. apply add_new_events_in_order. constructor.
    + split; [exact Hsorted |].
      intros lo Hlo. apply Hlow. intros x Hx. subst q.
      apply add_new_events_in in Hx as [[] | Hx]. now apply Hlo.
Qed.

(** The scenario: requests at time 0, the pickup at 2, the dropoff and
    the driver's next request at 4, the stale cancellation at 100. *)
Lemma run_executes_in_timestamp_order_witness :
  executed 20
    (simulation.add_new_events container.new
       [RiderRequest 0 0%nat; DriverRequest 0 0%nat])
    (simulation._world scenario)
  = Ok [RiderRequest 0 0%nat; DriverRequest 0 0%nat; Pickup 2 0%nat 0%nat;
        Dropoff 4 0%nat 0%nat; DriverRequest 4 0%nat; Cancellation 100 0%nat]
  /\
  StronglySorted (fun a b => event.timestamp a <= event.timestamp b)
    [RiderRequest 0 0%nat; DriverRequest 0 0%nat; Pickup 2 0%nat 0%nat;
     Dropoff 4 0%nat 0%nat; DriverRequest 4 0%nat; Cancellation 100 0%nat].
Proof.
  assert (Hex : executed 20
                  (simulation.add_new_events container.new
                     [RiderRequest 0 0%nat; DriverRequest 0 0%nat])
                  (simulation._world scenario)
                = Ok [RiderRequest 0 0%nat; DriverRequest 0 0%nat;
                      Pickup 2 0%nat 0%nat; Dropoff 4 0%nat 0%nat;
                      DriverRequest 4 0%nat; Cancellation 100 0%nat])
    by (vm_compute; reflexivity).
  split; [exact Hex |].
  destruct (run_executes_in_timestamp_order 20
              [RiderRequest 0 0%nat; DriverRequest 0 0%nat]
              (simulation._world scenario)) as [_ H].
  - intros d. reflexivity.
  - intros r. discriminate.
  - now apply H.
Defined.

(** ** The monitor's other averages *)




Section TotalDistance.





End TotalDistance.



(** ** The order of events *)

(** X20.  The comparisons of events look at timestamps only: [==] holds
    exactly between events of the same timestamp, whatever their kinds
    and actors, so a rider's request and a driver's request of the same
    time are equal; of [<], [==] and [>] exactly one holds; [>] and [>=]
    are [<] and [<=] with the sides exchanged; [<=] is [<] or [==]. *)
Theorem event_comparisons (a b : Event) :
  (event.Event_eq a b = true <-> event.timestamp a = event.timestamp b) /\
  (forall t r d,
      event.Event_eq (RiderRequest t r) (DriverRequest t d) = true) /\
  event.Event_ne a b = negb (event.Event_eq a b) /\
  event.Event_gt a b = event.Event_lt b a /\
  event.Event_ge a b = event.Event_le b a /\
  event.Event_le a b = event.Event_lt a b || event.Event_eq a b /\
  ((event.Event_lt a b = true /\ event.Event_eq a b = false /\
    event.Event_gt a b = false) \/
   (event.Event_lt a b = false /\ event.Event_eq a b = true /\
    event.Event_gt a b = false) \/
   (event.Event_lt a b = false /\ event.Event_eq a b = false /\
    event.Event_gt a b = true)).
Proof.
  unfold event.Event_eq, event.Event_ne, event.Event_gt, event.Event_ge,
    event.Event_lt, event.Event_le.
  split; [apply Z.eqb_eq |].
  split; [intros t r d; apply Z.eqb_refl |].
  split; [reflexivity |].
  destruct (Z.ltb_spec (event.timestamp a) (event.timestamp b)),
    (Z.ltb_spec (event.timestamp b) (event.timestamp a)),
    (Z.leb_spec (event.timestamp a) (event.timestamp b)),
    (Z.leb_spec (event.timestamp b) (event.timestamp a)),
    (Z.eqb_spec (event.timestamp a) (event.timestamp b));
    simpl; try lia; repeat split; tauto.
Qed.
